(** * Incremental search-and-summarize streaming protocol

    A shallow embedding of the two halves of the web-search tool:

    - [lib/ai/tools/tavilySearch.ts]: the server-side tool whose [execute]
      fans out one search request per query, streams status, source and
      summary events on the conversation's data stream and returns a
      result object;
    - [components/tavily-search-results.tsx]: the client component that
      folds the events of one tool call into its displayed state.

    JavaScript strings are modelled as [string], holding the UTF-8
    bytes of the text, arrays as [list], an optional object field as
    [option], a JavaScript [Set] as [gset]. *)

From Stdlib Require Import List Bool Arith Lia QArith NArith Ascii
  HexadecimalString Sorted.
From stdpp Require Import base strings gmap list pretty.

Local Open Scope nat_scope.
Local Open Scope string_scope.
Local Open Scope list_scope.

(** ** Types shared by both halves ([components/data-stream-handler]) *)

Inductive TavilySearchStatus : Type :=
| Searching          (* 'Searching...' *)
| Summarizing        (* 'Summarizing...' *)
| Complete           (* 'Complete' *)
| NoResultsFound     (* 'No results found.' *)
| ErrorOccurred.     (* 'Error occurred during search.' *)

(** [TavilySource = { title: string; url: string; content?: string;
    score?: number }].  The code only copies [score], never computes
    with it, so a rational stands for the JavaScript number. *)
Module TavilySource.
Record t : Type := mk
  { title : string;
    url : string;
    content : option string;
    score : option Q }.
End TavilySource.

(** The [type] tag of a delta; [other_delta] stands for the tags of the
    other tools that share the stream ('text-delta' and the like). *)
Inductive DeltaType : Type :=
| other_delta
| tavily_search_status
| tavily_search_sources
| tavily_summary_delta.

(** The object form of a delta's [content]. *)
Module TavilyContent.
Record t : Type := mk
  { toolCallId : string;
    status : option TavilySearchStatus;
    sources : option (list TavilySource.t);
    delta : option string;
    summary : option string;
    error : option string }.
End TavilyContent.

(** [content: string | Suggestion | { toolCallId: string; ... }].  A
    [Suggestion] has no [toolCallId] field, which is all the component
    looks at. *)
Inductive DeltaContent : Type :=
| ContentString (s : string)
| ContentSuggestion
| ContentObject (c : TavilyContent.t).

Module DataStreamDelta.
Record t : Type := mk
  { type : DeltaType;
    content : DeltaContent }.
End DataStreamDelta.

(** JavaScript truthiness of an optional string field: absent and the
    empty string are both falsy. *)
Definition truthy (field : option string) : option string :=
  match field with
  | Some s => if String.eqb s "" then None else Some s
  | None => None
  end.

(** ** JavaScript strings *)

(** A [string] of the model holds the UTF-8 bytes of a JavaScript
    string, whose own unit is the UTF-16 code unit.  Concatenation,
    equality and emptiness are the same in both; a position is not,
    and the one position the code uses is the 150 of
    [substring(0, 150)]. *)
Module JSString.

(** The code units of the character that starts with the byte [c]: one
    for an ASCII byte and for the first byte of a sequence of two or
    three bytes (a character of the basic plane), two for the first
    byte of a sequence of four (a surrogate pair), none for a
    continuation byte, which belongs to the character before it. *)
Definition codeUnits (c : Ascii.ascii) : nat :=
  let b := N_of_ascii c in
  if (b <? 128)%N then 1
  else if (b <? 192)%N then 0
  else if (b <? 240)%N then 1
  else 2.

(** [s.length] *)
Fixpoint length (s : string) : nat :=
  match s with
  | "" => 0
  | String c rest => codeUnits c + length rest
  end.

(** The byte of [s] at [i], zero past the end. *)
Definition byteAt (i : nat) (s : string) : N :=
  match String.get i s with
  | Some c => N_of_ascii c
  | None => 0%N
  end.

(** The first code unit of the surrogate pair that [s] starts with,
    alone.  The four bytes of the character carry the 21 bits of its
    code point; the high surrogate is 0xD800 plus the code point less
    0x10000, shifted right by ten bits.  Alone it is no character, and
    it is written in three bytes the way UTF-8 writes any 16-bit
    value. *)
Definition highSurrogate (s : string) : string :=
  let top := (N.land (byteAt 0 s) 7 * 256
              + N.land (byteAt 1 s) 63 * 4
              + N.land (byteAt 2 s) 63 / 16)%N in
  let unit := (55296 + top - 64)%N in
  String (ascii_of_N 237)
    (String (ascii_of_N (128 + N.land (unit / 64) 63))
       (String (ascii_of_N (128 + N.land unit 63)) "")).

(** [s.substring(0, indexEnd)]: the code units before [indexEnd].  When
    the last of them is the first half of a surrogate pair, the result
    ends with that half alone. *)
Fixpoint substring (indexEnd : nat) (s : string) : string :=
  match s with
  | "" => ""
  | String c rest =>
      match codeUnits c, indexEnd with
      | 0, _ => String c (substring indexEnd rest)
      | _, 0 => ""
      | 1, S indexEnd => String c (substring indexEnd rest)
      | _, 1 => highSurrogate s
      | _, S (S indexEnd) => String c (substring indexEnd rest)
      end
  end.

End JSString.

(** ** The client component: [components/tavily-search-results.tsx] *)

Module Results.

(** The four [useState] cells the stream updates. *)
Record State : Type := mkState
  { status : TavilySearchStatus;
    sources : list TavilySource.t;
    summary : string;
    error : option string }.

Record InitialResult : Type := mkInitialResult
  { initialSummary : option string;
    initialSources : option (list TavilySource.t) }.

(** The initial values passed to [useState]:
    [initialResult?.sources || []] and [initialResult?.summary || '']. *)
Definition initialState (initialResult : option InitialResult) : State :=
  {| status := Searching;
     sources := match initialResult with
                | Some r => default [] (initialSources r)
                | None => []
                end;
     summary := match initialResult with
                | Some r => default "" (truthy (initialSummary r))
                | None => ""
                end;
     error := None |}.

(** [s.some((es) => es.url === ns.url)] *)
Definition someUrl (s : list TavilySource.t) (ns : TavilySource.t) : bool :=
  existsb (fun es => String.eqb (TavilySource.url es) (TavilySource.url ns)) s.

(** The updater passed to [setSources]:
    [(s) => [...s, ...content.sources.filter((ns) => !s.some(...))]]. *)
Definition appendUnique (newSources s : list TavilySource.t)
  : list TavilySource.t :=
  s ++ List.filter (fun ns => negb (someUrl s ns)) newSources.

Definition setStatus (x : TavilySearchStatus) (st : State) : State :=
  {| status := x; sources := sources st;
     summary := summary st; error := error st |}.

Definition setSources (f : list TavilySource.t -> list TavilySource.t)
  (st : State) : State :=
  {| status := status st; sources := f (sources st);
     summary := summary st; error := error st |}.

Definition setSummary (f : string -> string) (st : State) : State :=
  {| status := status st; sources := sources st;
     summary := f (summary st); error := error st |}.

Definition setError (x : option string) (st : State) : State :=
  {| status := status st; sources := sources st;
     summary := summary st; error := x |}.

(** [if (field) update(field)] *)
Definition whenSome {A : Type} (field : option A) (update : A -> State -> State)
  (st : State) : State :=
  match field with
  | Some x => update x st
  | None => st
  end.

(** The body of [relevantDeltas.forEach((delta) => ...)]: the switch on
    [delta.type]. *)
Definition applyDelta (st : State) (delta : DataStreamDelta.t) : State :=
  match DataStreamDelta.content delta with
  | ContentObject content =>
      match DataStreamDelta.type delta with
      | tavily_search_status =>
          let st := whenSome (TavilyContent.status content) setStatus st in
          let st := whenSome (TavilyContent.sources content)
                      (fun srcs => setSources (appendUnique srcs)) st in
          let st := whenSome (truthy (TavilyContent.summary content))
                      (fun x => setSummary (fun _ => x)) st in
          whenSome (truthy (TavilyContent.error content))
            (fun x => setError (Some x)) st
      | tavily_search_sources =>
          whenSome (TavilyContent.sources content)
            (fun srcs => setSources (appendUnique srcs)) st
      | tavily_summary_delta =>
          whenSome (truthy (TavilyContent.delta content))
            (fun d => setSummary (fun prev => prev +:+ d)) st
      | other_delta => st
      end
  | _ => st
  end.

(** The predicate of [dataStream.filter(...)]: the content is an object
    with a [toolCallId] equal to the component's. *)
Definition isRelevant (toolCallId : string) (d : DataStreamDelta.t) : bool :=
  match DataStreamDelta.content d with
  | ContentObject content =>
      String.eqb (TavilyContent.toolCallId content) toolCallId
  | _ => false
  end.

Definition relevantDeltas (toolCallId : string)
  (dataStream : list DataStreamDelta.t) : list DataStreamDelta.t :=
  List.filter (isRelevant toolCallId) dataStream.

(** One run of the effect over the data stream. *)
Definition processStream (toolCallId : string)
  (dataStream : list DataStreamDelta.t) (st : State) : State :=
  fold_left applyDelta (relevantDeltas toolCallId dataStream) st.

(** The callback of [sources.filter] in [uniqueSources], with the
    mutable [seenUrls] set threaded through. *)
Fixpoint uniqueFrom (seenUrls : gset string) (l : list TavilySource.t)
  : list TavilySource.t :=
  match l with
  | [] => []
  | source :: rest =>
      if decide (TavilySource.url source ∈ seenUrls)
      then uniqueFrom seenUrls rest
      else source :: uniqueFrom ({[TavilySource.url source]} ∪ seenUrls) rest
  end.

Definition uniqueSources (sources : list TavilySource.t)
  : list TavilySource.t :=
  uniqueFrom ∅ sources.

End Results.

(** ** Completions, promises and the effect trace *)

(** How a (possibly asynchronous) computation ends: with a value, with a
    thrown error (kept by its [message]), or never. *)
Inductive Completion (A : Type) : Type :=
| Return (a : A)
| Throw (message : string)
| Pending.

Arguments Return {A} a.
Arguments Throw {A} message.
Arguments Pending {A}.

(** The effects of the tool that the outside can observe, in the order
    they happen: a [dataStream.writeData] call and a [streamText] call
    with its prompt. *)
Inductive Effect : Type :=
| WriteData (d : DataStreamDelta.t)
| StreamText (prompt : string).

(** A computation: its completion and the effects it performed. *)
Definition M (A : Type) : Type := (Completion A * list Effect)%type.

Definition ret {A : Type} (a : A) : M A := (Return a, []).

Definition throw {A : Type} (message : string) : M A := (Throw message, []).

Definition bind {A B : Type} (m : M A) (k : A -> M B) : M B :=
  match m with
  | (Return a, t) => let (r, t') := k a in (r, t ++ t')
  | (Throw message, t) => (Throw message, t)
  | (Pending, t) => (Pending, t)
  end.

(** [try { body } catch (error) { handler }]: the effects of the body
    up to the throw stay performed. *)
Definition tryCatch {A : Type} (body : M A) (handler : string -> M A) : M A :=
  match body with
  | (Throw message, t) => let (r, t') := handler message in (r, t ++ t')
  | other => other
  end.

(** [await p] on a promise whose settlement is known. *)
Definition await {A : Type} (p : Completion A) : M A := (p, []).

Definition writeData (d : DataStreamDelta.t) : M unit :=
  (Return tt, [WriteData d]).

Declare Scope tool_scope.
Delimit Scope tool_scope with tool.
Notation "x <- m ;; k" := (bind m (fun x => k))
  (at level 100, m at next level, right associativity) : tool_scope.
Notation "m ;;; k" := (bind m (fun _ => k))
  (at level 100, right associativity) : tool_scope.

(** The events written on the data stream by a trace. *)
Definition written (t : list Effect) : list DataStreamDelta.t :=
  flat_map (fun e => match e with WriteData d => [d] | StreamText _ => [] end) t.

(** The prompts of the [streamText] calls of a trace. *)
Definition prompts (t : list Effect) : list string :=
  flat_map (fun e => match e with StreamText p => [p] | WriteData _ => [] end) t.

(** [Promise.all(promises)], the promises settling in the order
    [completionOrder] (indices into [promises]).  As in the language
    definition, each fulfilment stores its value in the slot of its own
    index and decrements a counter, the result resolves with the slots
    when the counter reaches zero, and the first rejection rejects the
    result.  A promise that is absent from the order never settles. *)
Fixpoint resolveElements {A : Type} (promises : list (Completion A))
  (values : list (option A)) (remaining : nat) (completionOrder : list nat)
  : Completion (list A) :=
  match completionOrder with
  | [] => Pending
  | i :: later =>
      match promises !! i, values !! i with
      | Some (Return v), Some None =>
          let values := <[i := Some v]> values in
          match remaining with
          | 1 => Return (omap id values)
          | _ => resolveElements promises values (remaining - 1) later
          end
      | Some (Throw message), Some None => Throw message
      | _, _ => resolveElements promises values remaining later
      end
  end.

Definition Promise_all {A : Type} (promises : list (Completion A))
  (completionOrder : list nat) : Completion (list A) :=
  match promises with
  | [] => Return []
  | _ => resolveElements promises (replicate (length promises) None)
           (length promises) completionOrder
  end.

(** ** The tool: [lib/ai/tools/tavilySearch.ts] *)

Module TavilySearchResult.
Record t : Type := mk
  { title : string;
    url : string;
    content : string;
    score : Q }.
End TavilySearchResult.

Module TavilySearchResponse.
Record t : Type := mk
  { query : string;
    response_time : Q;
    results : list TavilySearchResult.t }.
End TavilySearchResponse.

(** The [Response] a [fetch] call resolves with, as far as the tool
    looks at it: the [ok] flag, the [statusText] and how [json()]
    settles.  Here the parsed body has the shape the source casts it
    to, which the provider's documented responses have; the cast
    itself checks nothing, and [RawResponse] below takes the body as
    [json()] gives it. *)
Module Response.
Record t : Type := mk
  { ok : bool;
    statusText : string;
    json : Completion TavilySearchResponse.t }.
End Response.

(** What iterating [textStream] yields: the fragments, then the end of
    the stream, a thrown error or nothing more.  A failure of the
    [streamText] call itself is a stream that throws before its first
    fragment. *)
Module TextStream.
Record t : Type := mk
  { fragments : list string;
    ending : Completion unit }.
End TextStream.

(** Everything outside the tool that one call of [execute] depends on. *)
Module World.
Record t : Type := mk
  { TAVILY_API_KEY : option string;       (* process.env.TAVILY_API_KEY *)
    uuid : string;                        (* what generateUUID() draws *)
    fetch : nat -> string -> Completion Response.t; (* the fetch of the i-th query *)
    completionOrder : list nat;           (* the order the searches settle in *)
    streamText : string -> TextStream.t }.
End World.

(** The object [execute] returns. *)
Module ResultSource.
Record t : Type := mk
  { url : string;
    title : string;
    content : string }.
End ResultSource.

Module ToolResult.
Record t : Type := mk
  { toolCallId : string;
    summary : string;
    sources : list ResultSource.t;
    error : option string }.
End ToolResult.

Module TavilySearch.

Definition LF : string := String (Ascii.ascii_of_nat 10) "".

(** [array.join(separator)] *)
Fixpoint join (separator : string) (l : list string) : string :=
  match l with
  | [] => ""
  | [x] => x
  | x :: rest => x +:+ separator +:+ join separator rest
  end.

(** [generateUUID] fills a template from [Math.random]; the identifier
    it produces is an input of the model. *)
Definition generateUUID (w : World.t) : string := World.uuid w.

Definition serializeSearchResult (result : TavilySearchResult.t)
  : TavilySource.t :=
  {| TavilySource.title := TavilySearchResult.title result;
     TavilySource.url := TavilySearchResult.url result;
     TavilySource.content := Some (TavilySearchResult.content result);
     TavilySource.score := Some (TavilySearchResult.score result) |}.

(** The three shapes of event the tool writes. *)
Definition statusEvent (toolCallId : string) (status : TavilySearchStatus)
  (sources : option (list TavilySource.t)) (summary error : option string)
  : DataStreamDelta.t :=
  {| DataStreamDelta.type := tavily_search_status;
     DataStreamDelta.content := ContentObject
       {| TavilyContent.toolCallId := toolCallId;
          TavilyContent.status := Some status;
          TavilyContent.sources := sources;
          TavilyContent.delta := None;
          TavilyContent.summary := summary;
          TavilyContent.error := error |} |}.

Definition sourcesEvent (toolCallId : string) (sources : list TavilySource.t)
  : DataStreamDelta.t :=
  {| DataStreamDelta.type := tavily_search_sources;
     DataStreamDelta.content := ContentObject
       {| TavilyContent.toolCallId := toolCallId;
          TavilyContent.status := None;
          TavilyContent.sources := Some sources;
          TavilyContent.delta := None;
          TavilyContent.summary := None;
          TavilyContent.error := None |} |}.

Definition summaryDeltaEvent (toolCallId : string) (delta : string)
  : DataStreamDelta.t :=
  {| DataStreamDelta.type := tavily_summary_delta;
     DataStreamDelta.content := ContentObject
       {| TavilyContent.toolCallId := toolCallId;
          TavilyContent.status := None;
          TavilyContent.sources := None;
          TavilyContent.delta := Some delta;
          TavilyContent.summary := None;
          TavilyContent.error := None |} |}.

Definition emptyResponse (query : string) : TavilySearchResponse.t :=
  {| TavilySearchResponse.query := query;
     TavilySearchResponse.response_time := 0%Q;
     TavilySearchResponse.results := [] |}.

Local Open Scope tool_scope.

(** The async callback of [queries.map]: one search, with its own
    [try]/[catch].  The [console.error] calls are not observable on the
    stream and are left out. *)
Definition searchQuery (fetched : Completion Response.t) (query : string)
  : M TavilySearchResponse.t :=
  tryCatch
    (res <- await fetched ;;
     if negb (Response.ok res) then ret (emptyResponse query)
     else await (Response.json res))
    (fun error => ret (emptyResponse query)).

(** [queries.map(async (query) => ...)]: the promise of each search,
    in the order of the queries. *)
Definition searchPromises (w : World.t) (queries : list string)
  : list (Completion TavilySearchResponse.t) :=
  imap (fun i query => fst (searchQuery (World.fetch w i query) query)) queries.

(** The loop [for (const response of searchResponses)], with the
    array [allSources] it pushes to.  At the type of a response the
    guard [response?.results?.length > 0] is a test on the length of
    [results]. *)
Fixpoint collectSources (toolCallId : string)
  (searchResponses : list TavilySearchResponse.t)
  (allSources : list TavilySearchResult.t) : M (list TavilySearchResult.t) :=
  match searchResponses with
  | [] => ret allSources
  | response :: rest =>
      if (0 <? length (TavilySearchResponse.results response))%nat then
        let relevantResults := firstn 5 (TavilySearchResponse.results response) in
        let allSources := allSources ++ relevantResults in
        let serializedResults := map serializeSearchResult relevantResults in
        writeData (sourcesEvent toolCallId serializedResults) ;;;
        collectSources toolCallId rest allSources
      else collectSources toolCallId rest allSources
  end.

Definition contextForSummarization (allSources : list TavilySearchResult.t)
  : string :=
  join (LF +:+ LF +:+ "---" +:+ LF +:+ LF)
    (imap (fun index result =>
             "Source " +:+ pretty (index + 1)%nat +:+ " ("
             +:+ TavilySearchResult.url result +:+ "):" +:+ LF
             +:+ TavilySearchResult.content result)
       allSources).

Definition summarizationPrompt (queries : list string)
  (allSources : list TavilySearchResult.t) : string :=
  "Based on the following search results, provide a concise summary addressing the original queries: ["
  +:+ join ", " queries
  +:+ "]. Cite relevant source numbers (e.g., [Source 1], [Source 2]) where appropriate."
  +:+ LF +:+ LF +:+ "Search Results:" +:+ LF
  +:+ contextForSummarization allSources.

(** The loop [for await (const delta of textStream)], with the
    variable [finalSummary] it appends to. *)
Fixpoint streamSummary (toolCallId : string) (fragments : list string)
  (ending : Completion unit) (finalSummary : string) : M string :=
  match fragments with
  | [] => await ending ;;; ret finalSummary
  | delta :: rest =>
      let finalSummary := finalSummary +:+ delta in
      writeData (summaryDeltaEvent toolCallId delta) ;;;
      streamSummary toolCallId rest ending finalSummary
  end.

(** [content: `${s.content.substring(0, 150)}...`] *)
Definition resultSource (s : TavilySearchResult.t) : ResultSource.t :=
  {| ResultSource.url := TavilySearchResult.url s;
     ResultSource.title := TavilySearchResult.title s;
     ResultSource.content :=
       JSString.substring 150 (TavilySearchResult.content s) +:+ "..." |}.

(** The body of the outer [try]. *)
Definition tryBlock (w : World.t) (toolCallId : string) (queries : list string)
  : M ToolResult.t :=
  searchResponses <- await (Promise_all (searchPromises w queries)
                              (World.completionOrder w)) ;;
  allSources <- collectSources toolCallId searchResponses [] ;;
  if (length allSources =? 0)%nat then
    writeData (statusEvent toolCallId NoResultsFound (Some []) None None) ;;;
    ret {| ToolResult.toolCallId := toolCallId;
           ToolResult.summary := "No relevant search results found.";
           ToolResult.sources := [];
           ToolResult.error := None |}
  else
    let prompt := summarizationPrompt queries allSources in
    let serializedSources := map serializeSearchResult allSources in
    writeData (statusEvent toolCallId Summarizing (Some serializedSources)
                 None None) ;;;
    textStream <- (Return (World.streamText w prompt), [StreamText prompt]) ;;
    finalSummary <- streamSummary toolCallId (TextStream.fragments textStream)
                      (TextStream.ending textStream) "" ;;
    writeData (statusEvent toolCallId Complete (Some serializedSources)
                 (Some finalSummary) None) ;;;
    ret {| ToolResult.toolCallId := toolCallId;
           ToolResult.summary := finalSummary;
           ToolResult.sources := map resultSource allSources;
           ToolResult.error := None |}.

(** The body of the outer [catch]. *)
Definition catchBlock (toolCallId : string) (message : string)
  : M ToolResult.t :=
  writeData (statusEvent toolCallId ErrorOccurred None None (Some message)) ;;;
  ret {| ToolResult.toolCallId := toolCallId;
         ToolResult.summary := "An error occurred during the search.";
         ToolResult.sources := [];
         ToolResult.error := Some message |}.

Definition execute (w : World.t) (queries : list string) : M ToolResult.t :=
  match truthy (World.TAVILY_API_KEY w) with
  | None => throw "Tavily API key not configured."
  | Some apiKey =>
      let toolCallId := generateUUID w in
      writeData (statusEvent toolCallId Searching (Some []) None None) ;;;
      tryCatch (tryBlock w toolCallId queries) (catchBlock toolCallId)
  end.

End TavilySearch.

(** ** The search path on bodies as [json()] gives them *)

(** Line 101 casts what [json()] resolves with to [TavilySearchResponse]
    and checks nothing, so a body that parses need not have that shape.
    The bodies followed here are the well-formed ones and those the
    guard of the loop, [response?.results?.length > 0], itself provides
    for: a body that is [null], a [results] that is missing or [null],
    and an array of results with entries that are [null].  The fields
    [query] and [response_time] of a body may be missing; the code never
    reads them. *)
Inductive RawResults : Type :=
| ResultsMissing
| ResultsArray (entries : list (option TavilySearchResult.t)).

Inductive RawBody : Type :=
| BodyNull
| BodyObject (query : option string) (response_time : option Q)
    (results : RawResults).

Module RawResponse.
Record t : Type := mk
  { ok : bool;
    statusText : string;
    json : Completion RawBody }.
End RawResponse.

Module RawWorld.
Record t : Type := mk
  { TAVILY_API_KEY : option string;
    uuid : string;
    fetch : nat -> string -> Completion RawResponse.t;
    completionOrder : list nat;
    streamText : string -> TextStream.t }.
End RawWorld.

Definition Completion_map {A B : Type} (f : A -> B) (c : Completion A)
  : Completion B :=
  match c with
  | Return a => Return (f a)
  | Throw message => Throw message
  | Pending => Pending
  end.

(** What follows the loop over the responses (lines 139 to 214), for
    the sources the loop has collected. *)
Definition afterLoop (streamText : string -> TextStream.t)
  (toolCallId : string) (queries : list string)
  (allSources : list TavilySearchResult.t) : M ToolResult.t :=
  (if (length allSources =? 0)%nat then
     writeData (TavilySearch.statusEvent toolCallId NoResultsFound (Some [])
                  None None) ;;;
     ret {| ToolResult.toolCallId := toolCallId;
            ToolResult.summary := "No relevant search results found.";
            ToolResult.sources := [];
            ToolResult.error := None |}
   else
     let prompt := TavilySearch.summarizationPrompt queries allSources in
     let serializedSources :=
       map TavilySearch.serializeSearchResult allSources in
     writeData (TavilySearch.statusEvent toolCallId Summarizing
                  (Some serializedSources) None None) ;;;
     textStream <- (Return (streamText prompt), [StreamText prompt]) ;;
     finalSummary <- TavilySearch.streamSummary toolCallId
                       (TextStream.fragments textStream)
                       (TextStream.ending textStream) "" ;;
     writeData (TavilySearch.statusEvent toolCallId Complete
                  (Some serializedSources) (Some finalSummary) None) ;;;
     ret {| ToolResult.toolCallId := toolCallId;
            ToolResult.summary := finalSummary;
            ToolResult.sources := map TavilySearch.resultSource allSources;
            ToolResult.error := None |})%tool.

Module RawSearch.

Local Open Scope tool_scope.

(** A response of the declared shape, as a body. *)
Definition bodyOf (response : TavilySearchResponse.t) : RawBody :=
  BodyObject (Some (TavilySearchResponse.query response))
    (Some (TavilySearchResponse.response_time response))
    (ResultsArray (map Some (TavilySearchResponse.results response))).

(** The object literal [{ query, response_time: 0, results: [] }]. *)
Definition emptyBody (query : string) : RawBody :=
  BodyObject (Some query) (Some 0%Q) (ResultsArray []).

(** The message of the [TypeError] that reading [property] of [null]
    raises (as V8 words it). *)
Definition nullPropertyError (property : string) : string :=
  "Cannot read properties of null (reading '" +:+ property +:+ "')".

(** An expression that is evaluated on the spot, and may throw. *)
Definition evaluate {A : Type} (c : Completion A) : M A := (c, []).

(** The async callback of [queries.map], returning what [json()] gave. *)
Definition searchQuery (fetched : Completion RawResponse.t) (query : string)
  : M RawBody :=
  tryCatch
    (res <- await fetched ;;
     if negb (RawResponse.ok res) then ret (emptyBody query)
     else await (RawResponse.json res))
    (fun error => ret (emptyBody query)).

Definition searchPromises (w : RawWorld.t) (queries : list string)
  : list (Completion RawBody) :=
  imap (fun i query => fst (searchQuery (RawWorld.fetch w i query) query))
    queries.

(** [response?.results]: [undefined] for a [null] body and for a body
    without results. *)
Definition resultsOf (response : RawBody)
  : option (list (option TavilySearchResult.t)) :=
  match response with
  | BodyObject _ _ (ResultsArray entries) => Some entries
  | _ => None
  end.

(** [relevantResults.map(serializeSearchResult)]: the callback reads
    [result.title] first, which throws on an entry that is [null]. *)
Fixpoint serializeResults (relevantResults : list (option TavilySearchResult.t))
  : Completion (list TavilySource.t) :=
  match relevantResults with
  | [] => Return []
  | None :: _ => Throw (nullPropertyError "title")
  | Some result :: rest =>
      Completion_map (cons (TavilySearch.serializeSearchResult result))
        (serializeResults rest)
  end.

(** The loop [for (const response of searchResponses)]. *)
Fixpoint collectSources (toolCallId : string) (searchResponses : list RawBody)
  (allSources : list (option TavilySearchResult.t))
  : M (list (option TavilySearchResult.t)) :=
  match searchResponses with
  | [] => ret allSources
  | response :: rest =>
      match resultsOf response with
      | Some results =>
          if (0 <? length results)%nat then
            let relevantResults := firstn 5 results in
            let allSources := allSources ++ relevantResults in
            serializedResults <- evaluate (serializeResults relevantResults) ;;
            writeData (TavilySearch.sourcesEvent toolCallId serializedResults) ;;;
            collectSources toolCallId rest allSources
          else collectSources toolCallId rest allSources
      | None => collectSources toolCallId rest allSources
      end
  end.

(** The first read of the collected sources after the loop is
    [result.url], in the callback that builds the context of the prompt
    (line 159), before any further effect; it throws on an entry that
    is [null].  An empty list is not read at all.  (The loop has read
    the [title] of every entry it has pushed, so an entry that is
    [null] has stopped the call before.) *)
Fixpoint readSources (allSources : list (option TavilySearchResult.t))
  : Completion (list TavilySearchResult.t) :=
  match allSources with
  | [] => Return []
  | None :: _ => Throw (nullPropertyError "url")
  | Some result :: rest => Completion_map (cons result) (readSources rest)
  end.

Definition tryBlock (w : RawWorld.t) (toolCallId : string)
  (queries : list string) : M ToolResult.t :=
  searchResponses <- await (Promise_all (searchPromises w queries)
                              (RawWorld.completionOrder w)) ;;
  allSources <- collectSources toolCallId searchResponses [] ;;
  allSources <- evaluate (readSources allSources) ;;
  afterLoop (RawWorld.streamText w) toolCallId queries allSources.

Definition execute (w : RawWorld.t) (queries : list string) : M ToolResult.t :=
  match truthy (RawWorld.TAVILY_API_KEY w) with
  | None => throw "Tavily API key not configured."
  | Some apiKey =>
      let toolCallId := RawWorld.uuid w in
      writeData (TavilySearch.statusEvent toolCallId Searching (Some [])
                   None None) ;;;
      tryCatch (tryBlock w toolCallId queries)
        (TavilySearch.catchBlock toolCallId)
  end.

(** A world whose bodies all have the declared shape. *)
Definition worldOf (w : World.t) : RawWorld.t :=
  {| RawWorld.TAVILY_API_KEY := World.TAVILY_API_KEY w;
     RawWorld.uuid := World.uuid w;
     RawWorld.fetch := fun i query =>
       Completion_map
         (fun res => {| RawResponse.ok := Response.ok res;
                        RawResponse.statusText := Response.statusText res;
                        RawResponse.json :=
                          Completion_map bodyOf (Response.json res) |})
         (World.fetch w i query);
     RawWorld.completionOrder := World.completionOrder w;
     RawWorld.streamText := World.streamText w |}.

End RawSearch.

(** ** [generateUUID], with its random draws given *)

Module UUID.

Definition template : string := "xxxxxxxx-xxxx-4xxx-yxxx-xxxxxxxxxxxx".

(** [v.toString(16)] of a non-negative integer. *)
Definition toString16 (v : N) : string :=
  HexadecimalString.NilZero.string_of_uint (N.to_hex_uint v).

(** The callback of [replace]: [r] is the value of
    [(Math.random() * 16) | 0] at this call. *)
Definition replacement (c : Ascii.ascii) (r : N) : string :=
  let v := if Ascii.eqb c "x"%char then r else N.lor (N.land r 3) 8 in
  toString16 v.

(** [template.replace(/[xy]/g, callback)]: the callback is called once
    for each [x] or [y], from left to right; [draws k] is what the
    [k]-th call of [Math.random] gives. *)
Fixpoint replaceXY (s : string) (draws : nat -> N) (k : nat) : string :=
  match s with
  | EmptyString => EmptyString
  | String c rest =>
      if Ascii.eqb c "x"%char || Ascii.eqb c "y"%char
      then replacement c (draws k) +:+ replaceXY rest draws (S k)
      else String c (replaceXY rest draws k)
  end.

Definition generateUUID (draws : nat -> N) : string :=
  replaceXY template draws 0.

End UUID.

(** ** What the component renders *)

Module View.

(** One entry of the sources tab: the link target, the link text
    [source.title || source.url] and the excerpt
    [source.content && ...]. *)
Record SourceCard : Type := mkSourceCard
  { href : string;
    label : string;
    excerpt : option string }.

(** The [Tabs] element: which triggers are disabled, the count in the
    'Sources (n)' trigger, and what each tab holds. *)
Record Tabs : Type := mkTabs
  { summaryDisabled : bool;
    sourcesDisabled : bool;
    sourcesCount : nat;
    generatingSummary : bool;      (* 'Generating summary...' *)
    markdown : option string;      (* the rendered summary *)
    summaryGenerated : bool;       (* 'Summary generated.' *)
    nothingToSummarize : bool;     (* 'No relevant results found to summarize.' *)
    cards : list SourceCard;
    noSourcesFound : bool }.       (* 'No sources found.' *)

(** The content of the card when it is expanded. *)
Record Body : Type := mkBody
  { searchingTheWeb : bool;        (* 'Searching the web...' *)
    tabs : option Tabs }.

Record Card : Type := mkCard
  { spinner : bool;
    errorText : option string;
    toggleLabel : string;
    body : option Body }.

Definition statusIs (a b : TavilySearchStatus) : bool :=
  match a, b with
  | Searching, Searching
  | Summarizing, Summarizing
  | Complete, Complete
  | NoResultsFound, NoResultsFound
  | ErrorOccurred, ErrorOccurred => true
  | _, _ => false
  end.

(** [a || b] on strings. *)
Definition orElse (a b : string) : string :=
  if String.eqb a "" then b else a.

Definition sourceCard (source : TavilySource.t) : SourceCard :=
  {| href := TavilySource.url source;
     label := orElse (TavilySource.title source) (TavilySource.url source);
     excerpt := truthy (TavilySource.content source) |}.

Definition renderTabs (st : Results.State) : Tabs :=
  let uniqueSources := Results.uniqueSources (Results.sources st) in
  let status := Results.status st in
  let summary := Results.summary st in
  {| summaryDisabled :=
       statusIs status Searching && (String.length summary =? 0)%nat;
     sourcesDisabled := (length uniqueSources =? 0)%nat;
     sourcesCount := length uniqueSources;
     generatingSummary :=
       statusIs status Summarizing && (String.length summary =? 0)%nat;
     markdown := truthy (Some summary);
     summaryGenerated :=
       match truthy (Some summary) with
       | Some _ => false
       | None => statusIs status Complete
       end;
     nothingToSummarize := statusIs status NoResultsFound;
     cards := map sourceCard uniqueSources;
     noSourcesFound :=
       (length uniqueSources =? 0)%nat && negb (statusIs status Searching) |}.

Definition renderBody (st : Results.State) : Body :=
  let uniqueSources := Results.uniqueSources (Results.sources st) in
  let status := Results.status st in
  let error := truthy (Results.error st) in
  {| searchingTheWeb :=
       statusIs status Searching && negb (bool_decide (is_Some error))
       && (length uniqueSources =? 0)%nat;
     tabs :=
       if (negb (statusIs status Searching)
           || (0 <? length uniqueSources)%nat)
          && negb (bool_decide (is_Some error))
       then Some (renderTabs st)
       else None |}.

(** The returned element, for the state [st] and the [expanded] flag. *)
Definition render (st : Results.State) (expanded : bool) : Card :=
  {| spinner :=
       statusIs (Results.status st) Searching
       || statusIs (Results.status st) Summarizing;
     errorText := truthy (Results.error st);
     toggleLabel :=
       if expanded then "Collapse search results"
       else "Expand search results";
     body := if expanded then Some (renderBody st) else None |}.

End View.

(** * Vocabulary of the properties *)

Import TavilySearch.
Import Results.

(** ** The pieces of a trace *)

(** Concatenation of a list of fragments, left to right. *)
Definition concatFragments (fragments : list string) : string :=
  foldr String.append "" fragments.

(** The slots while the promises of [order] are still to settle. *)
Definition slotsBefore {A : Type} (values : list A) (order : list nat)
  : list (option A) :=
  imap (fun j v => if decide (j ∈ order) then None else Some v) values.

(** The slice of a response that the loop keeps:
    [response.results.slice(0, 5)]. *)
Definition relevantResults (response : TavilySearchResponse.t)
  : list TavilySearchResult.t :=
  firstn 5 (TavilySearchResponse.results response).

(** The slices of all responses, one after the other. *)
Definition accumulated (responses : list TavilySearchResponse.t)
  : list TavilySearchResult.t :=
  flat_map relevantResults responses.

(** One 'tavily-search-sources' event for each response that has results. *)
Definition sourceBatches (toolCallId : string)
  (responses : list TavilySearchResponse.t) : list DataStreamDelta.t :=
  flat_map (fun response =>
              match TavilySearchResponse.results response with
              | [] => []
              | _ => [sourcesEvent toolCallId
                        (map serializeSearchResult (relevantResults response))]
              end) responses.

Definition summaryDeltas (toolCallId : string) (fragments : list string)
  : list DataStreamDelta.t :=
  map (summaryDeltaEvent toolCallId) fragments.

(** The three results the tool can return. *)
Definition noResultsResult (toolCallId : string) : ToolResult.t :=
  {| ToolResult.toolCallId := toolCallId;
     ToolResult.summary := "No relevant search results found.";
     ToolResult.sources := [];
     ToolResult.error := None |}.

Definition completeResult (toolCallId : string) (finalSummary : string)
  (allSources : list TavilySearchResult.t) : ToolResult.t :=
  {| ToolResult.toolCallId := toolCallId;
     ToolResult.summary := finalSummary;
     ToolResult.sources := map resultSource allSources;
     ToolResult.error := None |}.

Definition errorResult (toolCallId : string) (message : string) : ToolResult.t :=
  {| ToolResult.toolCallId := toolCallId;
     ToolResult.summary := "An error occurred during the search.";
     ToolResult.sources := [];
     ToolResult.error := Some message |}.

(** The trace of the summarization phase over the sources [allSources],
    up to the end of the text stream. *)
Definition summarizingTrace (w : World.t) (toolCallId : string)
  (queries : list string) (allSources : list TavilySearchResult.t)
  : list Effect :=
  let prompt := summarizationPrompt queries allSources in
  [WriteData (statusEvent toolCallId Summarizing
                (Some (map serializeSearchResult allSources)) None None);
   StreamText prompt]
  ++ map WriteData
       (summaryDeltas toolCallId
          (TextStream.fragments (World.streamText w prompt))).

Definition searchingEvent (toolCallId : string) : DataStreamDelta.t :=
  statusEvent toolCallId Searching (Some []) None None.

Definition noResultsEvent (toolCallId : string) : DataStreamDelta.t :=
  statusEvent toolCallId NoResultsFound (Some []) None None.

Definition summarizingEvent (toolCallId : string)
  (allSources : list TavilySearchResult.t) : DataStreamDelta.t :=
  statusEvent toolCallId Summarizing
    (Some (map serializeSearchResult allSources)) None None.

Definition completeEvent (toolCallId : string)
  (allSources : list TavilySearchResult.t) (finalSummary : string)
  : DataStreamDelta.t :=
  statusEvent toolCallId Complete
    (Some (map serializeSearchResult allSources)) (Some finalSummary) None.

(** The event written by the outer [catch]. *)
Definition errorEvent (toolCallId : string) (message : string)
  : DataStreamDelta.t :=
  statusEvent toolCallId ErrorOccurred None None (Some message).

(** The credential check [if (!apiKey)]. *)
Definition credentialAbsent (w : World.t) : Prop :=
  truthy (World.TAVILY_API_KEY w) = None.

Global Instance TavilySearchStatus_eq_dec : EqDecision TavilySearchStatus.
Proof. solve_decision. Defined.

(** The status carried by a 'tavily-search-status' event. *)
Definition statusOf (d : DataStreamDelta.t) : option TavilySearchStatus :=
  match DataStreamDelta.type d, DataStreamDelta.content d with
  | tavily_search_status, ContentObject c => TavilyContent.status c
  | _, _ => None
  end.

(** The sources carried by an event, of whatever type. *)
Definition sourcesOf (d : DataStreamDelta.t) : option (list TavilySource.t) :=
  match DataStreamDelta.content d with
  | ContentObject c => TavilyContent.sources c
  | _ => None
  end.

Definition summaryOf (d : DataStreamDelta.t) : option string :=
  match DataStreamDelta.content d with
  | ContentObject c => TavilyContent.summary c
  | _ => None
  end.

Definition isSourcesBatch (d : DataStreamDelta.t) : bool :=
  match DataStreamDelta.type d with
  | tavily_search_sources => true
  | _ => false
  end.


(** The fragments of the 'tavily-summary-delta' events, in order. *)
Definition summaryFragments (ds : list DataStreamDelta.t) : list string :=
  flat_map (fun d =>
              match DataStreamDelta.type d, DataStreamDelta.content d with
              | tavily_summary_delta, ContentObject c =>
                  option_list (TavilyContent.delta c)
              | _, _ => []
              end) ds.

(** ** Worlds used as examples *)

Definition exampleResult (url title : string) : TavilySearchResult.t :=
  {| TavilySearchResult.title := title;
     TavilySearchResult.url := url;
     TavilySearchResult.content := "text of " +:+ title;
     TavilySearchResult.score := 1 # 2 |}.

Definition okResponse (query : string) (results : list TavilySearchResult.t)
  : Completion Response.t :=
  Return {| Response.ok := true;
            Response.statusText := "OK";
            Response.json :=
              Return {| TavilySearchResponse.query := query;
                        TavilySearchResponse.response_time := 1;
                        TavilySearchResponse.results := results |} |}.

(** Two queries whose answers share the url [u] under two titles; the
    second search settles first; the summary arrives in two fragments. *)
Definition overlapWorld : World.t :=
  {| World.TAVILY_API_KEY := Some "tvly-key";
     World.uuid := "call-1";
     World.fetch := fun i query =>
       match i with
       | 0 => okResponse query [exampleResult "u" "first title"]
       | _ => okResponse query [exampleResult "u" "second title";
                                exampleResult "v" "other"]
       end;
     World.completionOrder := [1; 0];
     World.streamText := fun _ =>
       {| TextStream.fragments := ["Hello, "; "world"];
          TextStream.ending := Return tt |} |}.

(** The first search fails on the network and the second has one
    result; the summarizer behaves as [textStream] says. *)
Definition oneFailureWorld (textStream : TextStream.t) : World.t :=
  {| World.TAVILY_API_KEY := Some "tvly-key";
     World.uuid := "call-2";
     World.fetch := fun i query =>
       match i with
       | 0 => Throw "fetch failed"
       | _ => okResponse query [exampleResult "v" "other"]
       end;
     World.completionOrder := [0; 1];
     World.streamText := fun _ => textStream |}.


(** A summarizer that fails after one fragment. *)
Definition failingSummarizerWorld : World.t :=
  oneFailureWorld {| TextStream.fragments := ["partial"];
                     TextStream.ending := Throw "model overloaded" |}.

(** ** Statements about a call and about the reducer *)

(** The claim as the specification words it: the source list carried by
    the 'Summarizing...' and 'Complete' status events of a call has each
    url at most once. *)
Definition serverSourcesDeduplicated (w : World.t) (queries : list string)
  : Prop :=
  forall d srcs,
    In d (written (snd (execute w queries))) ->
    statusOf d = Some Summarizing \/ statusOf d = Some Complete ->
    sourcesOf d = Some srcs ->
    NoDup (map TavilySource.url srcs).

(** The responses of the searches, in the order in which they settle. *)
Definition responsesInCompletionOrder (w : World.t) (queries : list string)
  : list TavilySearchResponse.t :=
  omap (fun i => match searchPromises w queries !! i with
                 | Some (Return response) => Some response
                 | _ => None
                 end)
    (World.completionOrder w).

(** The claim as the specification words it: the source batches are
    written in the order in which the searches completed. *)
Definition emittedInCompletionOrder (w : World.t) (queries : list string)
  : Prop :=
  List.filter isSourcesBatch (written (snd (execute w queries)))
  = sourceBatches (generateUUID w) (responsesInCompletionOrder w queries).

(** A search has failed: the [fetch] call threw, or it resolved with a
    response that is not [ok], or whose body does not parse. *)
Definition fetchFails (fetched : Completion Response.t) : Prop :=
  match fetched with
  | Throw _ => True
  | Return res =>
      Response.ok res = false
      \/ exists message, Response.json res = Throw message
  | Pending => False
  end.

Definition hasUrl (u : string) (source : TavilySource.t) : bool :=
  String.eqb (TavilySource.url source) u.

(** The sources an event brings to the reducer: those of a status or
    sources event whose content is an object with a [sources] field. *)
Definition carriedSources (d : DataStreamDelta.t) : list TavilySource.t :=
  match DataStreamDelta.content d, DataStreamDelta.type d with
  | ContentObject c, (tavily_search_status | tavily_search_sources) =>
      default [] (TavilyContent.sources c)
  | _, _ => []
  end.

(** The claim as the specification words it. *)
Definition foldTwiceIsFoldOnce (st : State) (d : DataStreamDelta.t) : Prop :=
  applyDelta (applyDelta st d) d = applyDelta st d.

(** The fragment a 'tavily-summary-delta' event appends to the summary;
    empty for the other events. *)
Definition appendedFragment (d : DataStreamDelta.t) : string :=
  match DataStreamDelta.content d, DataStreamDelta.type d with
  | ContentObject c, tavily_summary_delta =>
      default "" (truthy (TavilyContent.delta c))
  | _, _ => ""
  end.

(** ** Further vocabulary: identifiers, phases, re-runs of the effect *)

Definition isLowerHex (c : ascii) : bool :=
  existsb (Ascii.eqb c) (String.list_ascii_of_string "0123456789abcdef").

Definition isVariantDigit (c : ascii) : bool :=
  existsb (Ascii.eqb c) (String.list_ascii_of_string "89ab").

(** [u] has the shape of [template]: one lowercase hexadecimal digit for
    each [x], one of [8], [9], [a], [b] for each [y], and the character
    of the template itself everywhere else. *)
Fixpoint hasShape (template u : string) : bool :=
  match template, u with
  | EmptyString, EmptyString => true
  | String t template, String c u =>
      (if Ascii.eqb t "x"%char then isLowerHex c
       else if Ascii.eqb t "y"%char then isVariantDigit c
       else Ascii.eqb t c)
      && hasShape template u
  | _, _ => false
  end.

(** The number of slots of [Promise.all] that are still empty. *)
Definition emptySlots {A : Type} (values : list (option A)) : nat :=
  length (List.filter (fun slot => match slot with
                                   | None => true
                                   | Some _ => false
                                   end) values).

(** Every filled slot holds the value of the promise of its index. *)
Definition slotsAgree {A : Type} (promises : list (Completion A))
  (values : list (option A)) : Prop :=
  length values = length promises
  /\ forall j v, values !! j = Some (Some v) -> promises !! j = Some (Return v).

(** The three terminal statuses. *)
Definition isTerminal (d : DataStreamDelta.t) : bool :=
  match statusOf d with
  | Some (Complete | NoResultsFound | ErrorOccurred) => true
  | _ => false
  end.

(** The phase of the protocol an event belongs to: the initial status,
    the source batches, the 'Summarizing...' status, the summary
    fragments, the terminal status. *)
Definition phase (d : DataStreamDelta.t) : nat :=
  match DataStreamDelta.type d with
  | tavily_search_sources => 1
  | tavily_summary_delta => 3
  | tavily_search_status =>
      match statusOf d with
      | Some Searching => 0
      | Some Summarizing => 2
      | _ => 4
      end
  | other_delta => 0
  end.

(** The [toolCallId] an event is tagged with. *)
Definition toolCallIdOf (d : DataStreamDelta.t) : option string :=
  match DataStreamDelta.content d with
  | ContentObject c => Some (TavilyContent.toolCallId c)
  | _ => None
  end.

(** The effect of the component runs again, over the whole stream, each
    time [dataStream] changes: [snapshots] are the successive values of
    [dataStream]. *)
Definition runEffects (toolCallId : string)
  (snapshots : list (list DataStreamDelta.t)) (st : State) : State :=
  fold_left (fun st dataStream => processStream toolCallId dataStream st)
    snapshots st.

(** The summary a status event sets, if it carries a non-empty one. *)
Definition summarySetBy (d : DataStreamDelta.t) : option string :=
  match DataStreamDelta.type d, DataStreamDelta.content d with
  | tavily_search_status, ContentObject c => truthy (TavilyContent.summary c)
  | _, _ => None
  end.

(** The error a status event sets, if it carries a non-empty one. *)
Definition errorSetBy (d : DataStreamDelta.t) : option string :=
  match DataStreamDelta.type d, DataStreamDelta.content d with
  | tavily_search_status, ContentObject c => truthy (TavilyContent.error c)
  | _, _ => None
  end.

(** The object a reloaded page passes as [initialResult]: the summary
    and the sources of the result the tool returned. *)
Definition initialResultOf (result : ToolResult.t) : InitialResult :=
  {| initialSummary := Some (ToolResult.summary result);
     initialSources :=
       Some (map (fun s => {| TavilySource.title := ResultSource.title s;
                              TavilySource.url := ResultSource.url s;
                              TavilySource.content := Some (ResultSource.content s);
                              TavilySource.score := None |})
               (ToolResult.sources result)) |}.

(** The urls of a list of sources, as a set. *)
Definition urlsOf (l : list TavilySource.t) : gset string :=
  list_to_set (map TavilySource.url l).

(** The same world with another order of completion of the searches. *)
Definition withCompletionOrder (w : World.t) (order : list nat) : World.t :=
  {| World.TAVILY_API_KEY := World.TAVILY_API_KEY w;
     World.uuid := World.uuid w;
     World.fetch := World.fetch w;
     World.completionOrder := order;
     World.streamText := World.streamText w |}.

(** ** Failed searches, on bodies as parsed *)







Definition okWith (body : RawBody) : Completion RawResponse.t :=
  Return {| RawResponse.ok := true;
            RawResponse.statusText := "OK";
            RawResponse.json := Return body |}.

(** The first query is answered with the body [{"results": [null]}],
    the second with one result; the summarizer works. *)
Definition nullEntryWorld : RawWorld.t :=
  {| RawWorld.TAVILY_API_KEY := Some "tvly-key";
     RawWorld.uuid := "call-6";
     RawWorld.fetch := fun i query =>
       match i with
       | 0 => okWith (BodyObject None None (ResultsArray [None]))
       | _ => okWith (RawSearch.bodyOf
                        {| TavilySearchResponse.query := query;
                           TavilySearchResponse.response_time := 1;
                           TavilySearchResponse.results :=
                             [exampleResult "v" "other"] |})
       end;
     RawWorld.completionOrder := [0; 1];
     RawWorld.streamText := fun _ =>
       {| TextStream.fragments := ["One "; "source."];
          TextStream.ending := Return tt |} |}.


(** ** The cut of a content *)

(** Every character of [s] is in ASCII: one byte and one code unit
    each. *)
Fixpoint isAscii (s : string) : bool :=
  match s with
  | "" => true
  | String c rest => (N_of_ascii c <? 128)%N && isAscii rest
  end.

(** No character of [s] takes four bytes: none is a surrogate pair. *)
Fixpoint inBasicPlane (s : string) : bool :=
  match s with
  | "" => true
  | String c rest => (N_of_ascii c <? 240)%N && inBasicPlane rest
  end.

(** [s] does not start in the middle of a character. *)
Definition startsCharacter (s : string) : bool :=
  match s with
  | "" => true
  | String c _ => negb (JSString.codeUnits c =? 0)%nat
  end.

(** [s] starts with a character of two code units. *)
Definition startsPair (s : string) : bool :=
  match s with
  | "" => false
  | String c _ => (JSString.codeUnits c =? 2)%nat
  end.

Definition resultWithContent (content : string) : TavilySearchResult.t :=
  {| TavilySearchResult.title := "t";
     TavilySearchResult.url := "u";
     TavilySearchResult.content := content;
     TavilySearchResult.score := 1 # 2 |}.

(** A content of 160 ASCII characters. *)
Definition longContent : string :=
  concatFragments (replicate 16 "0123456789").

(** U+00E9, two bytes and one code unit. *)
Definition eAcute : string :=
  String (ascii_of_N 195) (String (ascii_of_N 169) "").

(** U+1F600, four bytes and two code units, 0xD83D and 0xDE00. *)
Definition grinningFace : string :=
  String (ascii_of_N 240)
    (String (ascii_of_N 159)
       (String (ascii_of_N 152) (String (ascii_of_N 128) ""))).

(** 0xD83D alone. *)
Definition halfGrinningFace : string :=
  String (ascii_of_N 237)
    (String (ascii_of_N 160) (String (ascii_of_N 189) "")).


(** * Properties *)

(** ** Strings and the monad *)

Lemma append_cons (x : Ascii.ascii) (a b : string) :
  String x a +:+ b = String x (a +:+ b).
Proof. reflexivity. Qed.

Lemma append_assoc (a b c : string) : (a +:+ b) +:+ c = a +:+ (b +:+ c).
Proof.
  induction a as [|x a IH]; [reflexivity|].
  now rewrite !append_cons, IH.
Qed.

Lemma append_empty_r (a : string) : a +:+ "" = a.
Proof.
  induction a as [|x a IH]; [reflexivity|].
  now rewrite append_cons, IH.
Qed.

Lemma bind_Return {A B : Type} (a : A) (t : list Effect) (k : A -> M B) :
  bind (Return a, t) k = (fst (k a), t ++ snd (k a)).
Proof. unfold bind. now destruct (k a). Qed.

Lemma bind_Throw {A B : Type} (message : string) (t : list Effect)
  (k : A -> M B) :
  bind (Throw message, t) k = (Throw message, t).
Proof. reflexivity. Qed.

Lemma bind_Pending {A B : Type} (t : list Effect) (k : A -> M B) :
  bind (Pending, t) k = (Pending, t).
Proof. reflexivity. Qed.

Lemma tryCatch_Return {A : Type} (a : A) (t : list Effect) (h : string -> M A) :
  tryCatch (Return a, t) h = (Return a, t).
Proof. reflexivity. Qed.

Lemma tryCatch_Throw {A : Type} (message : string) (t : list Effect)
  (h : string -> M A) :
  tryCatch (Throw message, t) h = (fst (h message), t ++ snd (h message)).
Proof. unfold tryCatch. now destruct (h message). Qed.

Lemma tryCatch_Pending {A : Type} (t : list Effect) (h : string -> M A) :
  tryCatch (Pending, t) h = (Pending, t).
Proof. reflexivity. Qed.

Lemma written_app (t1 t2 : list Effect) :
  written (t1 ++ t2) = written t1 ++ written t2.
Proof. unfold written. apply flat_map_app. Qed.

Lemma prompts_app (t1 t2 : list Effect) :
  prompts (t1 ++ t2) = prompts t1 ++ prompts t2.
Proof. unfold prompts. apply flat_map_app. Qed.

Lemma written_WriteData (ds : list DataStreamDelta.t) :
  written (map WriteData ds) = ds.
Proof. induction ds as [|d ds IH]; simpl; [reflexivity | now rewrite IH]. Qed.

Lemma prompts_WriteData (ds : list DataStreamDelta.t) :
  prompts (map WriteData ds) = [].
Proof. induction ds as [|d ds IH]; simpl; [reflexivity | exact IH]. Qed.

(** ** [Promise.all] keeps the order of its input *)

Lemma omap_id_Some {A : Type} (l : list A) : omap id (Some <$> l) = l.
Proof. induction l as [|x l IH]; csimpl; [reflexivity | now rewrite IH]. Qed.

Section PromiseAll.
Context {A : Type}.
Variable promises : list (Completion A).
Variable values : list A.
Hypothesis fulfilled : Forall2 (fun p v => p = Return v) promises values.

Lemma slotsBefore_nil : omap id (slotsBefore values []) = values.
Proof using Type.
  unfold slotsBefore.
  rewrite (imap_ext _ (const Some)).
  - rewrite imap_const. apply omap_id_Some.
  - intros j v _. destruct (decide (j ∈ [])) as [Hin|_]; [|reflexivity].
    now apply elem_of_nil in Hin.
Qed.

Lemma slotsBefore_step (i : nat) (v : A) (later : list nat) :
  values !! i = Some v -> i ∉ later ->
  <[i := Some v]> (slotsBefore values (i :: later)) = slotsBefore values later.
Proof using Type.
  intros Hv Hnot. apply list_eq. intros j. unfold slotsBefore.
  destruct (decide (i = j)) as [->|Hne].
  - rewrite list_lookup_insert_eq.
    + rewrite list_lookup_imap, Hv. simpl.
      destruct (decide (j ∈ later)); [contradiction | reflexivity].
    + rewrite length_imap. eapply lookup_lt_Some; eassumption.
  - rewrite list_lookup_insert_ne by assumption.
    rewrite !list_lookup_imap. destruct (values !! j) as [x|]; simpl; [|reflexivity].
    destruct (decide (j ∈ i :: later)) as [Hin|Hout];
      destruct (decide (j ∈ later)) as [Hin'|Hout']; try reflexivity.
    + apply elem_of_cons in Hin as [->|?]; congruence.
    + exfalso. apply Hout. now apply elem_of_cons; right.
Qed.

Lemma resolveElements_fulfilled (order : list nat) :
  NoDup order -> (forall i, i ∈ order -> i < length values) ->
  order <> [] ->
  resolveElements promises (slotsBefore values order) (length order) order
  = Return values.
Proof using fulfilled.
  induction order as [|i later IH]; intros Hnd Hlt Hne; [congruence|].
  apply NoDup_cons in Hnd as [Hnot Hnd].
  assert (Hi : i < length values) by (apply Hlt; now left).
  destruct (lookup_lt_is_Some_2 values i Hi) as [v Hv].
  assert (Hp : promises !! i = Some (Return v)).
  { destruct (Forall2_lookup_r _ _ _ _ _ fulfilled Hv) as (p & Hp & ->).
    exact Hp. }
  assert (Hslot : slotsBefore values (i :: later) !! i = Some None).
  { unfold slotsBefore. rewrite list_lookup_imap, Hv. simpl.
    destruct (decide (i ∈ i :: later)) as [_|Hout]; [reflexivity|].
    exfalso. apply Hout. now left. }
  cbn [resolveElements]. rewrite Hp, Hslot.
  rewrite (slotsBefore_step i v later Hv Hnot).
  destruct later as [|k later'].
  - simpl. now rewrite slotsBefore_nil.
  - change (length (i :: k :: later')) with (S (S (length later'))).
    cbn [Nat.sub].
    apply IH; [assumption | | discriminate].
    intros j Hj. apply Hlt. now right.
Qed.

End PromiseAll.

(** Whatever order the promises settle in, the result lists their
    values in the order of the promises. *)
Lemma Promise_all_fulfilled {A : Type} (promises : list (Completion A))
  (values : list A) (order : list nat) :
  Forall2 (fun p v => p = Return v) promises values ->
  Permutation order (seq 0 (length promises)) ->
  Promise_all promises order = Return values.
Proof.
  intros fulfilled Hperm. unfold Promise_all.
  pose proof (Forall2_length _ _ _ fulfilled) as Hlen.
  destruct (decide (promises = [])) as [->|Hnil].
  { destruct values; [reflexivity | discriminate]. }
  replace (match promises with [] => Return [] | _ => 
             resolveElements promises (replicate (length promises) None)
               (length promises) order end)
    with (resolveElements promises (replicate (length promises) None)
               (length promises) order)
    by (destruct promises; congruence).
  assert (Hall : forall j, j < length values -> j ∈ order).
  { intros j Hj. rewrite Hperm. apply elem_of_seq. lia. }
  assert (Hslots : replicate (length promises) None = slotsBefore values order).
  { apply list_eq. intros j. unfold slotsBefore.
    rewrite list_lookup_imap.
    destruct (values !! j) as [v|] eqn:Hv; simpl.
    - apply lookup_lt_Some in Hv as Hj.
      destruct (decide (j ∈ order)) as [_|Hout]; [|now specialize (Hall j Hj)].
      apply lookup_replicate_2. lia.
    - apply lookup_ge_None in Hv. apply lookup_replicate_None. lia. }
  rewrite Hslots.
  replace (length promises) with (length order) at 1
    by (rewrite Hperm; apply length_seq).
  apply resolveElements_fulfilled.
  - assumption.
  - rewrite Hperm. apply NoDup_seq.
  - intros j Hj. rewrite Hperm in Hj. apply elem_of_seq in Hj. lia.
  - intros ->. apply Permutation_nil in Hperm.
    destruct promises; [congruence | discriminate].
Qed.

(** ** The paths through [execute] *)

Lemma collectSources_eq (toolCallId : string)
  (responses : list TavilySearchResponse.t) (acc : list TavilySearchResult.t) :
  collectSources toolCallId responses acc
  = (Return (acc ++ accumulated responses),
     map WriteData (sourceBatches toolCallId responses)).
Proof.
  revert acc. induction responses as [|response rest IH]; intros acc.
  - simpl. unfold ret, accumulated. simpl. now rewrite app_nil_r.
  - cbn [collectSources]. unfold accumulated, sourceBatches, relevantResults.
    cbn [flat_map].
    destruct (TavilySearchResponse.results response) as [|x xs] eqn:Hres.
    + simpl. rewrite IH. reflexivity.
    + cbn [length Nat.ltb Nat.leb]. unfold writeData. rewrite bind_Return.
      rewrite IH. cbn [fst snd]. rewrite <- app_assoc. reflexivity.
Qed.

Lemma accumulated_nil (responses : list TavilySearchResponse.t) :
  accumulated responses = [] <->
  Forall (fun response => TavilySearchResponse.results response = []) responses.
Proof.
  unfold accumulated. induction responses as [|response rest IH]; simpl.
  - split; [constructor | reflexivity].
  - split.
    + intros H. apply app_eq_nil in H as [H1 H2]. constructor; [|now apply IH].
      unfold relevantResults in H1.
      destruct (TavilySearchResponse.results response); [reflexivity | discriminate].
    + intros H. inversion H as [|? ? H1 H2]; subst.
      unfold relevantResults. rewrite H1. simpl. now apply IH.
Qed.

Lemma sourceBatches_nil (toolCallId : string)
  (responses : list TavilySearchResponse.t) :
  accumulated responses = [] -> sourceBatches toolCallId responses = [].
Proof.
  intros H. apply accumulated_nil in H. unfold sourceBatches.
  induction H as [|response rest H1 _ IH]; simpl; [reflexivity|].
  now rewrite H1, IH.
Qed.

Lemma streamSummary_eq (toolCallId : string) (fragments : list string)
  (ending : Completion unit) (acc : string) :
  streamSummary toolCallId fragments ending acc
  = (match ending with
     | Return _ => Return (acc +:+ concatFragments fragments)
     | Throw message => Throw message
     | Pending => Pending
     end,
     map WriteData (summaryDeltas toolCallId fragments)).
Proof.
  revert acc. induction fragments as [|delta rest IH]; intros acc.
  - simpl. unfold await, bind, ret. destruct ending; simpl;
      [now rewrite append_empty_r | reflexivity | reflexivity].
  - cbn [streamSummary]. unfold writeData. rewrite bind_Return, IH.
    cbn [fst snd]. f_equal.
    destruct ending; [|reflexivity|reflexivity].
    f_equal. unfold concatFragments. cbn [foldr]. apply append_assoc.
Qed.

(** The body of the [try], once the searches have all settled. *)
Lemma tryBlock_resolved (w : World.t) (toolCallId : string)
  (queries : list string) (responses : list TavilySearchResponse.t) :
  Promise_all (searchPromises w queries) (World.completionOrder w)
  = Return responses ->
  tryBlock w toolCallId queries
  = let allSources := accumulated responses in
    let batches := map WriteData (sourceBatches toolCallId responses) in
    match allSources with
    | [] =>
        (Return (noResultsResult toolCallId),
         batches ++ [WriteData (statusEvent toolCallId NoResultsFound
                                  (Some []) None None)])
    | _ =>
        let textStream :=
          World.streamText w (summarizationPrompt queries allSources) in
        let finalSummary := concatFragments (TextStream.fragments textStream) in
        match TextStream.ending textStream with
        | Return _ =>
            (Return (completeResult toolCallId finalSummary allSources),
             batches ++ summarizingTrace w toolCallId queries allSources
             ++ [WriteData (statusEvent toolCallId Complete
                              (Some (map serializeSearchResult allSources))
                              (Some finalSummary) None)])
        | Throw message =>
            (Throw message,
             batches ++ summarizingTrace w toolCallId queries allSources)
        | Pending =>
            (Pending,
             batches ++ summarizingTrace w toolCallId queries allSources)
        end
    end.
Proof.
  intros Hall. unfold tryBlock. rewrite Hall. unfold await at 1.
  rewrite bind_Return. rewrite collectSources_eq. rewrite bind_Return.
  cbn [fst snd app]. cbv zeta.
  destruct (accumulated responses) as [|x xs] eqn:Hacc.
  - reflexivity.
  - cbn [length Nat.eqb]. unfold writeData at 1. rewrite bind_Return.
    rewrite bind_Return. rewrite streamSummary_eq.
    unfold summarizingTrace.
    destruct (TextStream.ending (World.streamText w _)) as [[]| |].
    + rewrite bind_Return. unfold writeData, ret. rewrite bind_Return.
      cbn [fst snd]. rewrite ?app_nil_r, <- ?app_assoc. reflexivity.
    + rewrite bind_Throw. cbn [fst snd].
      rewrite ?app_nil_r, <- ?app_assoc. reflexivity.
    + rewrite bind_Pending. cbn [fst snd].
      rewrite ?app_nil_r, <- ?app_assoc. reflexivity.
Qed.

Lemma catchBlock_eq (toolCallId message : string) :
  catchBlock toolCallId message
  = (Return (errorResult toolCallId message),
     [WriteData (errorEvent toolCallId message)]).
Proof. reflexivity. Qed.

Lemma execute_no_key (w : World.t) (queries : list string) :
  credentialAbsent w ->
  execute w queries = (Throw "Tavily API key not configured.", []).
Proof. unfold credentialAbsent, execute. now intros ->. Qed.

Lemma execute_with_key (w : World.t) (queries : list string) :
  ~ credentialAbsent w ->
  execute w queries
  = let body := tryCatch (tryBlock w (generateUUID w) queries)
                  (catchBlock (generateUUID w)) in
    (fst body, WriteData (searchingEvent (generateUUID w)) :: snd body).
Proof.
  unfold credentialAbsent, execute. intros Hkey.
  destruct (truthy (World.TAVILY_API_KEY w)) as [apiKey|]; [|congruence].
  unfold writeData. now rewrite bind_Return.
Qed.

(** [execute] when the [try] block throws: the [catch] turns the error
    into an event and a result. *)
Lemma execute_caught (w : World.t) (queries : list string)
  (message : string) (t : list Effect) :
  ~ credentialAbsent w ->
  tryBlock w (generateUUID w) queries = (Throw message, t) ->
  execute w queries
  = (Return (errorResult (generateUUID w) message),
     [WriteData (searchingEvent (generateUUID w))] ++ t
     ++ [WriteData (errorEvent (generateUUID w) message)]).
Proof.
  intros Hkey Hbody. rewrite execute_with_key by assumption.
  cbv zeta. rewrite Hbody, tryCatch_Throw, catchBlock_eq. reflexivity.
Qed.

(** [execute] once every search has settled. *)
Lemma execute_resolved (w : World.t) (queries : list string)
  (responses : list TavilySearchResponse.t) :
  ~ credentialAbsent w ->
  Promise_all (searchPromises w queries) (World.completionOrder w)
  = Return responses ->
  execute w queries
  = let toolCallId := generateUUID w in
    let allSources := accumulated responses in
    let start := WriteData (searchingEvent toolCallId)
                 :: map WriteData (sourceBatches toolCallId responses) in
    match allSources with
    | [] => (Return (noResultsResult toolCallId),
             start ++ [WriteData (noResultsEvent toolCallId)])
    | _ =>
        let textStream :=
          World.streamText w (summarizationPrompt queries allSources) in
        let finalSummary := concatFragments (TextStream.fragments textStream) in
        let summarizing :=
          start ++ summarizingTrace w toolCallId queries allSources in
        match TextStream.ending textStream with
        | Return _ =>
            (Return (completeResult toolCallId finalSummary allSources),
             summarizing
             ++ [WriteData (completeEvent toolCallId allSources finalSummary)])
        | Throw message =>
            (Return (errorResult toolCallId message),
             summarizing ++ [WriteData (errorEvent toolCallId message)])
        | Pending => (Pending, summarizing)
        end
    end.
Proof.
  intros Hkey Hall. rewrite execute_with_key by assumption.
  rewrite (tryBlock_resolved _ _ _ _ Hall). cbv zeta.
  destruct (accumulated responses) as [|x xs]; [reflexivity|].
  destruct (TextStream.ending _) as [[]| |].
  - rewrite tryCatch_Return. cbn [fst snd].
    now rewrite <- !app_comm_cons, <- !app_assoc.
  - rewrite tryCatch_Throw, catchBlock_eq. cbn [fst snd].
    now rewrite <- !app_comm_cons, <- !app_assoc.
  - rewrite tryCatch_Pending. cbn [fst snd].
    now rewrite <- !app_comm_cons.
Qed.

(** [execute] when [Promise.all] rejects or never resolves. *)
Lemma execute_rejected (w : World.t) (queries : list string) (message : string) :
  ~ credentialAbsent w ->
  Promise_all (searchPromises w queries) (World.completionOrder w)
  = Throw message ->
  execute w queries
  = (Return (errorResult (generateUUID w) message),
     [WriteData (searchingEvent (generateUUID w));
      WriteData (errorEvent (generateUUID w) message)]).
Proof.
  intros Hkey Hall. apply (execute_caught w queries message []); [assumption|].
  unfold tryBlock. now rewrite Hall.
Qed.

Lemma execute_pending (w : World.t) (queries : list string) :
  ~ credentialAbsent w ->
  Promise_all (searchPromises w queries) (World.completionOrder w) = Pending ->
  execute w queries = (Pending, [WriteData (searchingEvent (generateUUID w))]).
Proof.
  intros Hkey Hall. rewrite execute_with_key by assumption.
  unfold tryBlock. now rewrite Hall.
Qed.

(** ** Reading a trace *)

Lemma sourceBatches_type (toolCallId : string)
  (responses : list TavilySearchResponse.t) (d : DataStreamDelta.t) :
  In d (sourceBatches toolCallId responses) ->
  DataStreamDelta.type d = tavily_search_sources.
Proof.
  unfold sourceBatches. rewrite in_flat_map. intros (response & _ & Hd).
  destruct (TavilySearchResponse.results response); simpl in Hd; [contradiction|].
  destruct Hd as [<-|[]]. reflexivity.
Qed.

Lemma summaryDeltas_type (toolCallId : string) (fragments : list string)
  (d : DataStreamDelta.t) :
  In d (summaryDeltas toolCallId fragments) ->
  DataStreamDelta.type d = tavily_summary_delta.
Proof.
  unfold summaryDeltas. rewrite in_map_iff. now intros (x & <- & _).
Qed.

Lemma summaryFragments_app (l1 l2 : list DataStreamDelta.t) :
  summaryFragments (l1 ++ l2) = summaryFragments l1 ++ summaryFragments l2.
Proof. apply flat_map_app. Qed.

Lemma summaryFragments_batches (toolCallId : string)
  (responses : list TavilySearchResponse.t) :
  summaryFragments (sourceBatches toolCallId responses) = [].
Proof.
  unfold sourceBatches.
  induction responses as [|response rest IH]; simpl; [reflexivity|].
  rewrite summaryFragments_app, IH, app_nil_r.
  now destruct (TavilySearchResponse.results response).
Qed.

Lemma summaryFragments_deltas (toolCallId : string) (fragments : list string) :
  summaryFragments (summaryDeltas toolCallId fragments) = fragments.
Proof.
  induction fragments as [|x rest IH]; simpl; [reflexivity | now rewrite IH].
Qed.

Lemma filter_batches (toolCallId : string)
  (responses : list TavilySearchResponse.t) :
  List.filter isSourcesBatch (sourceBatches toolCallId responses)
  = sourceBatches toolCallId responses.
Proof.
  apply forallb_filter_id, forallb_forall. intros d Hd.
  unfold isSourcesBatch. now rewrite (sourceBatches_type _ _ _ Hd).
Qed.

Lemma filter_deltas (toolCallId : string) (fragments : list string) :
  List.filter isSourcesBatch (summaryDeltas toolCallId fragments) = [].
Proof.
  induction fragments as [|x rest IH]; simpl; [reflexivity | exact IH].
Qed.

Lemma written_summarizingTrace (w : World.t) (toolCallId : string)
  (queries : list string) (allSources : list TavilySearchResult.t) :
  written (summarizingTrace w toolCallId queries allSources)
  = summarizingEvent toolCallId allSources
    :: summaryDeltas toolCallId
         (TextStream.fragments
            (World.streamText w (summarizationPrompt queries allSources))).
Proof.
  unfold summarizingTrace. cbv zeta. rewrite written_app, written_WriteData.
  reflexivity.
Qed.

Lemma prompts_summarizingTrace (w : World.t) (toolCallId : string)
  (queries : list string) (allSources : list TavilySearchResult.t) :
  prompts (summarizingTrace w toolCallId queries allSources)
  = [summarizationPrompt queries allSources].
Proof.
  unfold summarizingTrace. cbv zeta. rewrite prompts_app, prompts_WriteData.
  reflexivity.
Qed.

Lemma written_cons_WriteData (d : DataStreamDelta.t) (t : list Effect) :
  written (WriteData d :: t) = d :: written t.
Proof. reflexivity. Qed.

Lemma written_cons_StreamText (prompt : string) (t : list Effect) :
  written (StreamText prompt :: t) = written t.
Proof. reflexivity. Qed.

Lemma written_nil : written [] = [].
Proof. reflexivity. Qed.

Lemma prompts_cons_WriteData (d : DataStreamDelta.t) (t : list Effect) :
  prompts (WriteData d :: t) = prompts t.
Proof. reflexivity. Qed.

Lemma prompts_cons_StreamText (prompt : string) (t : list Effect) :
  prompts (StreamText prompt :: t) = prompt :: prompts t.
Proof. reflexivity. Qed.

Lemma prompts_nil : prompts [] = [].
Proof. reflexivity. Qed.

Create Rewrite HintDb trace.
#[export] Hint Rewrite written_app written_WriteData written_cons_WriteData
  written_cons_StreamText written_nil written_summarizingTrace
  prompts_app prompts_WriteData prompts_cons_WriteData
  prompts_cons_StreamText prompts_nil prompts_summarizingTrace : trace.
#[export] Hint Rewrite <- app_assoc app_comm_cons : trace.
#[export] Hint Rewrite @app_nil_r @app_nil_l : trace.

(** The events and the prompts of a call whose searches have all settled. *)
Lemma written_execute_resolved (w : World.t) (queries : list string)
  (responses : list TavilySearchResponse.t) :
  ~ credentialAbsent w ->
  Promise_all (searchPromises w queries) (World.completionOrder w)
  = Return responses ->
  written (snd (execute w queries))
  = let toolCallId := generateUUID w in
    let allSources := accumulated responses in
    searchingEvent toolCallId :: sourceBatches toolCallId responses
    ++ match allSources with
       | [] => [noResultsEvent toolCallId]
       | _ =>
           let textStream :=
             World.streamText w (summarizationPrompt queries allSources) in
           summarizingEvent toolCallId allSources
           :: summaryDeltas toolCallId (TextStream.fragments textStream)
           ++ match TextStream.ending textStream with
              | Return _ =>
                  [completeEvent toolCallId allSources
                     (concatFragments (TextStream.fragments textStream))]
              | Throw message => [errorEvent toolCallId message]
              | Pending => []
              end
       end.
Proof.
  intros Hkey Hall. rewrite (execute_resolved _ _ _ Hkey Hall). cbv zeta.
  destruct (accumulated responses) as [|x xs].
  - cbn [snd]. autorewrite with trace. reflexivity.
  - destruct (TextStream.ending _) as [[]| |]; cbn [snd];
      autorewrite with trace; reflexivity.
Qed.

Lemma prompts_execute_resolved (w : World.t) (queries : list string)
  (responses : list TavilySearchResponse.t) :
  ~ credentialAbsent w ->
  Promise_all (searchPromises w queries) (World.completionOrder w)
  = Return responses ->
  prompts (snd (execute w queries))
  = match accumulated responses with
    | [] => []
    | allSources => [summarizationPrompt queries allSources]
    end.
Proof.
  intros Hkey Hall. rewrite (execute_resolved _ _ _ Hkey Hall). cbv zeta.
  destruct (accumulated responses) as [|x xs].
  - cbn [snd]. autorewrite with trace. reflexivity.
  - destruct (TextStream.ending _) as [[]| |]; cbn [snd];
      autorewrite with trace; reflexivity.
Qed.

(** ** Worlds used as examples *)

(** ** The credential check (C9) *)

(** C9. [execute] throws to its caller only when the API credential is
    absent, and then it has performed no effect at all: no event of any
    type has been written (and no summarization was started).  With the
    credential present, [execute] never throws. *)
Theorem execute_throws_only_without_credential
  (w : World.t) (queries : list string) :
  match truthy (World.TAVILY_API_KEY w) with
  | None => execute w queries = (Throw "Tavily API key not configured.", [])
  | Some _ => forall message, fst (execute w queries) <> Throw message
  end.
Proof.
  destruct (truthy (World.TAVILY_API_KEY w)) as [apiKey|] eqn:Hkey.
  - intros message. rewrite execute_with_key
      by (unfold credentialAbsent; congruence).
    cbv zeta. cbn [fst].
    destruct (tryBlock w (generateUUID w) queries) as [[a|m|] t].
    + rewrite tryCatch_Return. discriminate.
    + rewrite tryCatch_Throw, catchBlock_eq. discriminate.
    + rewrite tryCatch_Pending. discriminate.
  - now apply execute_no_key.
Qed.

(** ** The outer [catch] (C7) *)



(** ** The no-results branch (C6) *)



(** ** Summary accumulation (C4) *)

(** Every event of a call that carries the status [status]. *)
Lemma status_event_resolved (w : World.t) (queries : list string)
  (responses : list TavilySearchResponse.t) (d : DataStreamDelta.t) :
  ~ credentialAbsent w ->
  Promise_all (searchPromises w queries) (World.completionOrder w)
  = Return responses ->
  In d (written (snd (execute w queries))) ->
  DataStreamDelta.type d = tavily_search_status ->
  let toolCallId := generateUUID w in
  let allSources := accumulated responses in
  let textStream :=
    World.streamText w (summarizationPrompt queries allSources) in
  d = searchingEvent toolCallId
  \/ (allSources = [] /\ d = noResultsEvent toolCallId)
  \/ (allSources <> [] /\ d = summarizingEvent toolCallId allSources)
  \/ (allSources <> [] /\ TextStream.ending textStream = Return tt
      /\ d = completeEvent toolCallId allSources
               (concatFragments (TextStream.fragments textStream)))
  \/ (allSources <> []
      /\ exists message, TextStream.ending textStream = Throw message
                         /\ d = errorEvent toolCallId message).
Proof.
  intros Hkey Hall Hin Htype. cbv zeta.
  rewrite (written_execute_resolved _ _ _ Hkey Hall) in Hin. cbv zeta in Hin.
  destruct Hin as [<-|Hin]; [now left|]. right.
  apply in_app_iff in Hin as [Hin|Hin].
  { apply sourceBatches_type in Hin. congruence. }
  destruct (accumulated responses) as [|x xs] eqn:Hacc.
  { destruct Hin as [<-|[]]. now left. }
  right. destruct Hin as [<-|Hin]; [now left|]. right.
  apply in_app_iff in Hin as [Hin|Hin].
  { apply summaryDeltas_type in Hin. congruence. }
  destruct (TextStream.ending _) as [[]|message|] eqn:Hend.
  - destruct Hin as [<-|[]]. now left.
  - destruct Hin as [<-|[]]. right. split; [discriminate|]. now exists message.
  - destruct Hin.
Qed.

(** C4. If a call has written a 'Complete' status event, then the
    fragments of all the 'tavily-summary-delta' events it has written,
    concatenated in the order written, are the [summary] of that event,
    and the call returns a result whose [summary] is that same string. *)
Theorem summary_is_concatenation_of_deltas
  (w : World.t) (queries : list string) (d : DataStreamDelta.t) :
  In d (written (snd (execute w queries))) ->
  statusOf d = Some Complete ->
  let fragments := summaryFragments (written (snd (execute w queries))) in
  summaryOf d = Some (concatFragments fragments)
  /\ exists result, fst (execute w queries) = Return result
                    /\ ToolResult.summary result = concatFragments fragments.
Proof.
  intros Hin Hstatus. cbv zeta.
  assert (Htype : DataStreamDelta.type d = tavily_search_status).
  { unfold statusOf in Hstatus.
    destruct (DataStreamDelta.type d); try discriminate. reflexivity. }
  destruct (truthy (World.TAVILY_API_KEY w)) as [apiKey|] eqn:Hcred.
  2:{ rewrite (execute_no_key w queries Hcred) in Hin. destruct Hin. }
  assert (Hkey : ~ credentialAbsent w) by (unfold credentialAbsent; congruence).
  destruct (Promise_all (searchPromises w queries) (World.completionOrder w))
    as [responses|message|] eqn:Hall.
  - destruct (status_event_resolved w queries responses d Hkey Hall Hin Htype)
      as [->|[[_ ->]|[[_ ->]|[(Hne & Hend & ->)|(_ & message & _ & ->)]]]];
      try discriminate Hstatus.
    rewrite (written_execute_resolved _ _ _ Hkey Hall).
    rewrite (execute_resolved _ _ _ Hkey Hall). cbv zeta.
    destruct (accumulated responses) as [|x xs]; [congruence|].
    rewrite Hend. cbn [fst].
    assert (Hfr : summaryFragments
                    (searchingEvent (generateUUID w)
                     :: sourceBatches (generateUUID w) responses
                     ++ summarizingEvent (generateUUID w) (x :: xs)
                     :: summaryDeltas (generateUUID w)
                          (TextStream.fragments
                             (World.streamText w
                                (summarizationPrompt queries (x :: xs))))
                     ++ [completeEvent (generateUUID w) (x :: xs)
                           (concatFragments
                              (TextStream.fragments
                                 (World.streamText w
                                    (summarizationPrompt queries (x :: xs)))))])
                  = TextStream.fragments
                      (World.streamText w
                         (summarizationPrompt queries (x :: xs)))).
    { change (summaryFragments (?a :: ?l)) with (summaryFragments l).
      rewrite summaryFragments_app, summaryFragments_batches. cbn [app].
      change (summaryFragments (?a :: ?l)) with (summaryFragments l).
      rewrite summaryFragments_app, summaryFragments_deltas.
      cbn. now rewrite app_nil_r. }
    rewrite Hfr. split; [reflexivity|].
    eexists. split; reflexivity.
  - rewrite (execute_rejected _ _ _ Hkey Hall) in Hin.
    destruct Hin as [<-|[<-|[]]]; discriminate Hstatus.
  - rewrite (execute_pending _ _ Hkey Hall) in Hin.
    destruct Hin as [<-|[]]; discriminate Hstatus.
Qed.

Lemma summary_is_concatenation_of_deltas_witness :
  let w := overlapWorld in
  let d := completeEvent "call-1"
             [exampleResult "u" "first title";
              exampleResult "u" "second title";
              exampleResult "v" "other"] "Hello, world" in
  In d (written (snd (execute w ["a"; "b"])))
  /\ statusOf d = Some Complete
  /\ summaryFragments (written (snd (execute w ["a"; "b"])))
     = ["Hello, "; "world"]
  /\ summaryOf d
     = Some (concatFragments
               (summaryFragments (written (snd (execute w ["a"; "b"]))))).
Proof.
  intros w d.
  assert (Hin : In d (written (snd (execute w ["a"; "b"]))))
    by (vm_compute; tauto).
  assert (Hstatus : statusOf d = Some Complete) by reflexivity.
  split; [exact Hin | split; [exact Hstatus | split; [vm_compute; reflexivity|]]].
  exact (proj1 (summary_is_concatenation_of_deltas w ["a"; "b"] d Hin Hstatus)).
Defined.

(** ** The accumulated source list on the server (C1) *)

(** Two queries that both return the url [u]: the 'Summarizing...' event
    carries both records. *)
Lemma server_sources_not_deduplicated :
  ~ serverSourcesDeduplicated overlapWorld ["a"; "b"].
Proof.
  intros Hclaim.
  pose (allSources := [exampleResult "u" "first title";
                       exampleResult "u" "second title";
                       exampleResult "v" "other"]).
  specialize (Hclaim (summarizingEvent "call-1" allSources)
                (map serializeSearchResult allSources)).
  assert (Hdup : NoDup ["u"; "u"; "v"]).
  { apply Hclaim; [vm_compute; tauto | now left | reflexivity]. }
  apply NoDup_cons in Hdup as [Hnot _]. apply Hnot. now left.
Qed.

(** C1 (amended). The source list carried by the 'Summarizing...' and
    'Complete' status events, and the one the summarization prompt is
    built from, is the concatenation, in the order of the queries, of
    the first five results of each response, with nothing removed: a url
    that two responses share stays in it twice. *)
Theorem server_sources_are_concatenated_slices
  (w : World.t) (queries : list string)
  (responses : list TavilySearchResponse.t) :
  ~ credentialAbsent w ->
  Promise_all (searchPromises w queries) (World.completionOrder w)
  = Return responses ->
  let allSources :=
    flat_map (fun response => firstn 5 (TavilySearchResponse.results response))
      responses in
  (forall d,
      In d (written (snd (execute w queries))) ->
      statusOf d = Some Summarizing \/ statusOf d = Some Complete ->
      sourcesOf d = Some (map serializeSearchResult allSources))
  /\ (forall prompt,
         In prompt (prompts (snd (execute w queries))) ->
         prompt = summarizationPrompt queries allSources)
  /\ (allSources <> [] ->
      In (statusEvent (generateUUID w) Summarizing
            (Some (map serializeSearchResult allSources)) None None)
        (written (snd (execute w queries)))
      /\ prompts (snd (execute w queries))
         = [summarizationPrompt queries allSources]).
Proof.
  intros Hkey Hall. cbv zeta.
  change (flat_map _ responses) with (accumulated responses).
  split; [|split].
  - intros d Hin Hstatus.
    assert (Htype : DataStreamDelta.type d = tavily_search_status).
    { unfold statusOf in Hstatus.
      destruct (DataStreamDelta.type d); destruct Hstatus; try discriminate;
        reflexivity. }
    destruct (status_event_resolved w queries responses d Hkey Hall Hin Htype)
      as [->|[[_ ->]|[[_ ->]|[(_ & _ & ->)|(_ & message & _ & ->)]]]];
      try reflexivity; destruct Hstatus; discriminate.
  - intros prompt Hin.
    rewrite (prompts_execute_resolved _ _ _ Hkey Hall) in Hin.
    destruct (accumulated responses); [destruct Hin|].
    destruct Hin as [<-|[]]. reflexivity.
  - intros Hne.
    rewrite (prompts_execute_resolved _ _ _ Hkey Hall).
    rewrite (written_execute_resolved _ _ _ Hkey Hall). cbv zeta.
    destruct (accumulated responses) as [|x xs]; [congruence|].
    split; [|reflexivity].
    right. apply in_app_iff. right. now left.
Qed.

Lemma server_sources_are_concatenated_slices_witness :
  let w := overlapWorld in
  let responses :=
    [ {| TavilySearchResponse.query := "a";
         TavilySearchResponse.response_time := 1;
         TavilySearchResponse.results := [exampleResult "u" "first title"] |};
      {| TavilySearchResponse.query := "b";
         TavilySearchResponse.response_time := 1;
         TavilySearchResponse.results := [exampleResult "u" "second title";
                                          exampleResult "v" "other"] |} ] in
  let allSources := [exampleResult "u" "first title";
                     exampleResult "u" "second title";
                     exampleResult "v" "other"] in
  ~ credentialAbsent w
  /\ Promise_all (searchPromises w ["a"; "b"]) (World.completionOrder w)
     = Return responses
  /\ prompts (snd (execute w ["a"; "b"]))
     = [summarizationPrompt ["a"; "b"] allSources].
Proof.
  intros w responses allSources.
  assert (Hkey : ~ credentialAbsent w) by (vm_compute; discriminate).
  assert (Hall : Promise_all (searchPromises w ["a"; "b"])
                   (World.completionOrder w) = Return responses)
    by (vm_compute; reflexivity).
  split; [exact Hkey | split; [exact Hall|]].
  refine (proj2 (proj2 (proj2 (server_sources_are_concatenated_slices
                                 w ["a"; "b"] responses Hkey Hall)) _)).
  discriminate.
Defined.

(** ** The order of the 'tavily-search-sources' events (C5) *)

(** The second search completes first, and its batch is still written
    second. *)
Lemma batches_not_in_completion_order :
  ~ emittedInCompletionOrder overlapWorld ["a"; "b"].
Proof. unfold emittedInCompletionOrder. vm_compute. discriminate. Qed.

Lemma searchPromises_length (w : World.t) (queries : list string) :
  length (searchPromises w queries) = length queries.
Proof. unfold searchPromises. apply length_imap. Qed.

(** C5 (amended). Whatever order the searches complete in, the
    'tavily-search-sources' events are written in the order in which the
    queries were submitted: one event for each response that has
    results, the responses taken in the order of their queries. *)
Theorem batches_follow_submission_order
  (w : World.t) (queries : list string)
  (responses : list TavilySearchResponse.t) :
  ~ credentialAbsent w ->
  Permutation (World.completionOrder w) (seq 0 (length queries)) ->
  Forall2 (fun promise response => promise = Return response)
    (searchPromises w queries) responses ->
  List.filter isSourcesBatch (written (snd (execute w queries)))
  = sourceBatches (generateUUID w) responses.
Proof.
  intros Hkey Hperm Hsettled.
  assert (Hall : Promise_all (searchPromises w queries)
                   (World.completionOrder w) = Return responses).
  { apply Promise_all_fulfilled; [assumption|].
    now rewrite searchPromises_length. }
  rewrite (written_execute_resolved _ _ _ Hkey Hall). cbv zeta.
  cbn [List.filter isSourcesBatch searchingEvent statusEvent
         DataStreamDelta.type].
  rewrite List.filter_app, filter_batches.
  rewrite <- (app_nil_r (sourceBatches _ _)) at 2. f_equal.
  destruct (accumulated responses) as [|x xs]; [reflexivity|].
  cbn [List.filter isSourcesBatch summarizingEvent statusEvent
         DataStreamDelta.type].
  rewrite List.filter_app, filter_deltas.
  now destruct (TextStream.ending _) as [[]| |].
Qed.

Lemma batches_follow_submission_order_witness :
  let w := overlapWorld in
  let responses :=
    [ {| TavilySearchResponse.query := "a";
         TavilySearchResponse.response_time := 1;
         TavilySearchResponse.results := [exampleResult "u" "first title"] |};
      {| TavilySearchResponse.query := "b";
         TavilySearchResponse.response_time := 1;
         TavilySearchResponse.results := [exampleResult "u" "second title";
                                          exampleResult "v" "other"] |} ] in
  World.completionOrder w = [1; 0]
  /\ List.filter isSourcesBatch (written (snd (execute w ["a"; "b"])))
     = sourceBatches "call-1" responses.
Proof.
  intros w responses. split; [reflexivity|].
  apply (batches_follow_submission_order w ["a"; "b"] responses).
  - vm_compute; discriminate.
  - apply perm_swap.
  - repeat constructor.
Defined.

(** ** Failures of single searches (C8) *)

Lemma searchQuery_never_throws (fetched : Completion Response.t)
  (query message : string) :
  fst (searchQuery fetched query) <> Throw message.
Proof.
  unfold searchQuery, await.
  destruct fetched as [res| |]; [|discriminate..].
  rewrite bind_Return.
  destruct (Response.ok res); cbn [negb]; [|discriminate].
  destruct (Response.json res); discriminate.
Qed.

Lemma searchQuery_failed (fetched : Completion Response.t) (query : string) :
  fetchFails fetched ->
  searchQuery fetched query = (Return (emptyResponse query), []).
Proof.
  unfold searchQuery, await, fetchFails.
  destruct fetched as [res| |]; [|reflexivity|contradiction].
  rewrite bind_Return. intros [Hok|[message Hjson]].
  - now rewrite Hok.
  - destruct (Response.ok res); [|reflexivity]. cbn [negb]. now rewrite Hjson.
Qed.

Lemma accumulated_not_nil (responses : list TavilySearchResponse.t)
  (j : nat) (response : TavilySearchResponse.t) :
  responses !! j = Some response ->
  TavilySearchResponse.results response <> [] ->
  accumulated responses <> [].
Proof.
  intros Hj Hres Hacc. apply accumulated_nil in Hacc.
  rewrite List.Forall_forall in Hacc. apply Hres, Hacc.
  apply list_elem_of_In. eapply list_elem_of_lookup_2. eassumption.
Qed.

(** *** The search path on parsed bodies *)





Lemma serializeResults_cases (entries : list (option TavilySearchResult.t)) :
  (exists results,
      entries = map Some results
      /\ RawSearch.serializeResults entries
         = Return (map serializeSearchResult results))
  \/ (In None entries
      /\ RawSearch.serializeResults entries
         = Throw "Cannot read properties of null (reading 'title')").
Proof.
  induction entries as [|[result|] entries IH].
  - left. now exists [].
  - destruct IH as [(results & -> & Heq)|[Hin Heq]].
    + left. exists (result :: results). split; [reflexivity|].
      cbn [RawSearch.serializeResults]. now rewrite Heq.
    + right. split; [now right|].
      cbn [RawSearch.serializeResults]. now rewrite Heq.
  - right. split; [now left | reflexivity].
Qed.

Lemma readSources_Some (results : list TavilySearchResult.t) :
  RawSearch.readSources (map Some results) = Return results.
Proof.
  induction results as [|result results IH]; [reflexivity|].
  cbn [map RawSearch.readSources]. now rewrite IH.
Qed.

Lemma map_Some_inj {A : Type} (l1 l2 : list A) :
  map Some l1 = map Some l2 -> l1 = l2.
Proof.
  intros H. apply (f_equal (omap id)) in H. now rewrite !omap_id_Some in H.
Qed.

Lemma In_None_map_Some {A : Type} (l : list A) : ~ In None (map Some l).
Proof. rewrite in_map_iff. now intros (x & Hx & _). Qed.




Lemma tryBlock_afterLoop (w : World.t) (toolCallId : string)
  (queries : list string) :
  tryBlock w toolCallId queries
  = bind (await (Promise_all (searchPromises w queries)
                   (World.completionOrder w)))
      (fun searchResponses =>
         bind (collectSources toolCallId searchResponses [])
           (fun allSources =>
              afterLoop (World.streamText w) toolCallId queries allSources)).
Proof. reflexivity. Qed.






(** *** Bodies of the declared shape *)

Lemma resolveElements_map {A B : Type} (f : A -> B)
  (promises : list (Completion A)) (order : list nat)
  (values : list (option A)) (remaining : nat) :
  resolveElements (map (Completion_map f) promises) (map (option_map f) values)
    remaining order
  = Completion_map (map f) (resolveElements promises values remaining order).
Proof.
  revert values remaining.
  induction order as [|i later IH]; intros values remaining; [reflexivity|].
  cbn [resolveElements].
  change (map (Completion_map f) promises)
    with (Completion_map f <$> promises).
  change (map (option_map f) values) with (option_map f <$> values).
  rewrite !list_lookup_fmap.
  destruct (promises !! i) as [[v|message|]|]; cbn [fmap option_fmap option_map
                                                    Completion_map].
  - destruct (values !! i) as [[old|]|]; cbn [fmap option_fmap option_map].
    + apply IH.
    + change (Some (f v)) with (option_map f (Some v)).
      rewrite <- list_fmap_insert.
      destruct remaining as [|[|remaining]]; [apply IH| |apply IH].
      cbn [Completion_map]. f_equal.
      generalize (<[i:=Some v]> values). intros l.
      induction l as [|[x|] l IHl]; [reflexivity| |]; csimpl.
      * cbn. f_equal. exact IHl.
      * exact IHl.
    + apply IH.
  - destruct (values !! i) as [[old|]|]; cbn [fmap option_fmap option_map];
      first [apply IH | reflexivity].
  - destruct (values !! i) as [[old|]|]; cbn [fmap option_fmap option_map];
      apply IH.
  - destruct (values !! i) as [[old|]|]; cbn [fmap option_fmap option_map];
      apply IH.
Qed.

Lemma Promise_all_map {A B : Type} (f : A -> B)
  (promises : list (Completion A)) (order : list nat) :
  Promise_all (map (Completion_map f) promises) order
  = Completion_map (map f) (Promise_all promises order).
Proof.
  unfold Promise_all. destruct promises as [|p promises]; [reflexivity|].
  cbn [map]. rewrite <- (resolveElements_map f (p :: promises)).
  cbn [map length]. rewrite length_map. f_equal.
  change (map (option_map f) ?l) with (option_map f <$> l).
  now rewrite fmap_replicate.
Qed.

Lemma RawSearch_searchPromises_worldOf (w : World.t) (queries : list string) :
  RawSearch.searchPromises (RawSearch.worldOf w) queries
  = map (Completion_map RawSearch.bodyOf) (searchPromises w queries).
Proof.
  unfold RawSearch.searchPromises, searchPromises.
  change (map ?f ?l) with (f <$> l). rewrite fmap_imap.
  apply imap_ext. intros i query _. cbn.
  unfold RawSearch.searchQuery, searchQuery, await.
  destruct (World.fetch w i query) as [res| |]; [|reflexivity..].
  cbn [Completion_map]. rewrite !bind_Return. cbn.
  destruct (Response.ok res); cbn [negb]; [|reflexivity].
  destruct (Response.json res); reflexivity.
Qed.

Lemma RawSearch_collectSources_bodyOf (toolCallId : string)
  (responses : list TavilySearchResponse.t)
  (acc : list TavilySearchResult.t) :
  RawSearch.collectSources toolCallId (map RawSearch.bodyOf responses)
    (map Some acc)
  = (Return (map Some (acc ++ accumulated responses)),
     map WriteData (sourceBatches toolCallId responses)).
Proof.
  revert acc. induction responses as [|response rest IH]; intros acc.
  - cbn. unfold ret, accumulated. cbn. now rewrite app_nil_r.
  - cbn [map RawSearch.collectSources RawSearch.bodyOf RawSearch.resultsOf].
    unfold accumulated, sourceBatches, relevantResults. cbn [flat_map].
    rewrite length_map.
    destruct (TavilySearchResponse.results response) as [|x xs] eqn:Hres.
    + cbn [length Nat.ltb Nat.leb]. rewrite IH. reflexivity.
    + cbn [length Nat.ltb Nat.leb]. rewrite <- Hres.
      rewrite !firstn_map.
      destruct (serializeResults_cases
                  (map Some (firstn 5 (TavilySearchResponse.results response))))
        as [(results & Hkept & Hser)|[Hnull _]];
        [|now apply In_None_map_Some in Hnull].
      apply map_Some_inj in Hkept. subst results. rewrite Hser.
      unfold RawSearch.evaluate. rewrite bind_Return.
      unfold writeData at 1. rewrite bind_Return.
      rewrite <- map_app, IH. cbn [fst snd app map].
      unfold accumulated, relevantResults. now rewrite <- app_assoc.
Qed.

(** On worlds whose bodies all have the declared shape, the tool on
    parsed bodies is the tool on typed responses. *)
Lemma RawSearch_execute_worldOf (w : World.t) (queries : list string) :
  RawSearch.execute (RawSearch.worldOf w) queries = execute w queries.
Proof.
  unfold RawSearch.execute, execute. cbn [RawSearch.worldOf RawWorld.TAVILY_API_KEY
    RawWorld.uuid].
  destruct (truthy (World.TAVILY_API_KEY w)) as [apiKey|]; [|reflexivity].
  unfold generateUUID. f_equal. f_equal.
  rewrite tryBlock_afterLoop. unfold RawSearch.tryBlock.
  rewrite RawSearch_searchPromises_worldOf.
  cbn [RawSearch.worldOf RawWorld.completionOrder RawWorld.streamText].
  rewrite Promise_all_map. unfold await.
  destruct (Promise_all (searchPromises w queries) (World.completionOrder w))
    as [responses| |]; [|reflexivity..].
  cbn [Completion_map]. rewrite !bind_Return.
  rewrite (RawSearch_collectSources_bodyOf _ responses []).
  rewrite collectSources_eq. rewrite !bind_Return. cbn [app].
  rewrite readSources_Some. unfold RawSearch.evaluate. rewrite bind_Return.
  reflexivity.
Qed.




(** The whole of that call: the first event, then the error. *)
Example null_entry_ends_in_error :
  let message := "Cannot read properties of null (reading 'title')" in
  fst (RawSearch.searchQuery (RawWorld.fetch nullEntryWorld 0 "a") "a")
  = Return (BodyObject None None (ResultsArray [None]))
  /\ RawSearch.execute nullEntryWorld ["a"; "b"]
     = (Return (errorResult "call-6" message),
        [WriteData (searchingEvent "call-6");
         WriteData (errorEvent "call-6" message)]).
Proof. split; reflexivity. Qed.

(** ** The client's source list (C2) *)

Lemma find_app_first {A : Type} (f : A -> bool) (l1 l2 : list A) :
  find f (l1 ++ l2)
  = match find f l1 with
    | Some x => Some x
    | None => find f l2
    end.
Proof.
  induction l1 as [|x l1 IH]; simpl; [reflexivity|].
  now destruct (f x).
Qed.

Lemma someUrl_false (s : list TavilySource.t) (ns : TavilySource.t) :
  find (hasUrl (TavilySource.url ns)) s = None -> someUrl s ns = false.
Proof.
  unfold someUrl, hasUrl. induction s as [|es s IH]; simpl; [reflexivity|].
  destruct (String.eqb _ _); [discriminate | exact IH].
Qed.

Lemma find_appendUnique (u : string) (newSources s : list TavilySource.t) :
  find (hasUrl u) (appendUnique newSources s)
  = find (hasUrl u) (s ++ newSources).
Proof.
  unfold appendUnique. rewrite !find_app_first.
  destruct (find (hasUrl u) s) eqn:Hs; [reflexivity|].
  induction newSources as [|ns rest IH]; simpl; [reflexivity|].
  destruct (hasUrl u ns) eqn:Hns.
  - apply String.eqb_eq in Hns. subst u.
    rewrite (someUrl_false _ _ Hs). simpl.
    unfold hasUrl at 1. now rewrite String.eqb_refl.
  - destruct (negb (someUrl s ns)); simpl; [rewrite Hns|]; exact IH.
Qed.

Lemma sources_applyDelta (st : State) (d : DataStreamDelta.t) :
  sources (applyDelta st d) = appendUnique (carriedSources d) (sources st).
Proof.
  unfold applyDelta, carriedSources, appendUnique.
  destruct d as [ty [text| |c]]; cbn [DataStreamDelta.content DataStreamDelta.type];
    try (destruct ty; simpl; now rewrite app_nil_r).
  destruct c as [id status srcs delta summary error].
  cbn [TavilyContent.status TavilyContent.sources TavilyContent.delta
         TavilyContent.summary TavilyContent.error].
  destruct ty.
  - simpl. now rewrite app_nil_r.
  - destruct status, srcs, (truthy summary), (truthy error); simpl;
      rewrite ?app_nil_r; reflexivity.
  - destruct srcs; simpl; rewrite ?app_nil_r; reflexivity.
  - destruct (truthy delta); simpl; now rewrite app_nil_r.
Qed.

Lemma find_fold_applyDelta (u : string) (ds : list DataStreamDelta.t)
  (st : State) :
  find (hasUrl u) (sources (fold_left applyDelta ds st))
  = find (hasUrl u) (sources st ++ flat_map carriedSources ds).
Proof.
  revert st. induction ds as [|d ds IH]; intros st; simpl.
  - now rewrite app_nil_r.
  - rewrite IH, sources_applyDelta, app_assoc.
    rewrite (find_app_first _ (appendUnique _ _)), find_appendUnique.
    now rewrite <- find_app_first.
Qed.

Lemma uniqueFrom_filter (u : string) (l : list TavilySource.t)
  (seenUrls : gset string) :
  List.filter (hasUrl u) (uniqueFrom seenUrls l)
  = if decide (u ∈ seenUrls) then [] else option_list (find (hasUrl u) l).
Proof.
  revert seenUrls. induction l as [|source rest IH]; intros seenUrls.
  - simpl. now destruct (decide _).
  - cbn [uniqueFrom find].
    destruct (decide (TavilySource.url source ∈ seenUrls)) as [Hseen|Hnew].
    + rewrite IH. destruct (decide (u ∈ seenUrls)) as [_|Hu]; [reflexivity|].
      destruct (hasUrl u source) eqn:Hsrc; [|reflexivity].
      apply String.eqb_eq in Hsrc. congruence.
    + cbn [List.filter]. rewrite IH.
      destruct (hasUrl u source) eqn:Hsrc.
      * apply String.eqb_eq in Hsrc. subst u.
        destruct (decide (_ ∈ {[_]} ∪ seenUrls)) as [_|Hout];
          [|exfalso; apply Hout, elem_of_union_l, elem_of_singleton;
            reflexivity].
        now destruct (decide (_ ∈ seenUrls)).
      * apply String.eqb_neq in Hsrc.
        destruct (decide (u ∈ {[TavilySource.url source]} ∪ seenUrls))
          as [Hin|Hout];
          destruct (decide (u ∈ seenUrls)) as [Hin'|Hout'];
          try reflexivity; exfalso.
        -- apply elem_of_union in Hin as [Hin%elem_of_singleton|Hin];
             congruence.
        -- apply Hout, elem_of_union_r, Hin'.
Qed.

Lemma uniqueFrom_NoDup (l : list TavilySource.t) (seenUrls : gset string) :
  NoDup (map TavilySource.url (uniqueFrom seenUrls l))
  /\ forall source, In source (uniqueFrom seenUrls l) ->
                    TavilySource.url source ∉ seenUrls.
Proof.
  revert seenUrls. induction l as [|source rest IH]; intros seenUrls.
  - split; [constructor | intros ? []].
  - cbn [uniqueFrom].
    destruct (decide (TavilySource.url source ∈ seenUrls)) as [Hseen|Hnew];
      [apply IH|].
    destruct (IH ({[TavilySource.url source]} ∪ seenUrls)) as [Hnd Hout].
    split.
    + cbn [map]. apply NoDup_cons. split; [|exact Hnd].
      intros Hin. apply list_elem_of_In, in_map_iff in Hin
        as (other & Hurl & Hother).
      apply Hout in Hother.
      apply Hother, elem_of_union_l, elem_of_singleton. exact Hurl.
    + intros other [<-|Hother]; [exact Hnew|].
      apply Hout in Hother. intros Hseen.
      apply Hother, elem_of_union_r, Hseen.
Qed.

(** C2. Fold the events of one call, in arrival order, from any state,
    and take the list the component displays.  No url occurs twice in
    it, and for every url [u] its records with that url are exactly the
    first record with url [u] among the arrivals (the state's sources,
    then the sources of the events in order), with that record's title,
    content and score; it has none when no arrival has url [u]. *)
Theorem displayed_sources_unique_first_seen
  (toolCallId : string) (dataStream : list DataStreamDelta.t) (st : State)
  (u : string) :
  let final := processStream toolCallId dataStream st in
  let displayed := uniqueSources (sources final) in
  let arrivals :=
    sources st
    ++ flat_map carriedSources (relevantDeltas toolCallId dataStream) in
  NoDup (map TavilySource.url displayed)
  /\ List.filter (hasUrl u) displayed = option_list (find (hasUrl u) arrivals).
Proof.
  cbv zeta. unfold uniqueSources, processStream. split.
  - apply uniqueFrom_NoDup.
  - rewrite uniqueFrom_filter.
    destruct (decide (u ∈ ∅)) as [Hin|_];
      [now apply not_elem_of_empty in Hin|].
    now rewrite find_fold_applyDelta.
Qed.

(** ** Folding an event twice (C3) *)

(** A summary fragment delivered twice is appended twice. *)
Lemma summary_delta_not_idempotent :
  ~ foldTwiceIsFoldOnce (initialState None) (summaryDeltaEvent "call-1" "Hello").
Proof. unfold foldTwiceIsFoldOnce. vm_compute. discriminate. Qed.

Lemma filter_nil_when {A : Type} (f : A -> bool) (l : list A) :
  (forall x, In x l -> f x = false) -> List.filter f l = [].
Proof.
  induction l as [|x l IH]; intros H; simpl; [reflexivity|].
  rewrite (H x) by now left. apply IH. intros y Hy. apply H. now right.
Qed.

Lemma appendUnique_idempotent (newSources s : list TavilySource.t) :
  appendUnique newSources (appendUnique newSources s)
  = appendUnique newSources s.
Proof.
  unfold appendUnique at 1.
  rewrite filter_nil_when; [apply app_nil_r|].
  intros ns Hns. apply negb_false_iff.
  unfold appendUnique, someUrl. rewrite existsb_app.
  destruct (existsb _ s) eqn:Hs; [reflexivity|]. cbn [orb].
  apply existsb_exists. exists ns. split; [|apply String.eqb_refl].
  apply filter_In. split; [exact Hns|].
  unfold someUrl. now rewrite Hs.
Qed.

Lemma State_eq (a b : State) :
  status a = status b -> sources a = sources b ->
  summary a = summary b -> error a = error b -> a = b.
Proof. destruct a, b; simpl; congruence. Qed.

Lemma other_fields_applyDelta (st : State) (d : DataStreamDelta.t) :
  let once := applyDelta st d in
  let twice := applyDelta once d in
  status twice = status once
  /\ error twice = error once
  /\ summary twice = summary once +:+ appendedFragment d.
Proof.
  cbv zeta. unfold applyDelta, appendedFragment.
  destruct d as [ty [text| |c]];
    cbn [DataStreamDelta.content DataStreamDelta.type];
    try (destruct ty; now rewrite append_empty_r).
  destruct c as [id status srcs delta summary error].
  cbn [TavilyContent.status TavilyContent.sources TavilyContent.delta
         TavilyContent.summary TavilyContent.error].
  destruct ty.
  - now rewrite append_empty_r.
  - destruct status, srcs, (truthy summary), (truthy error); simpl;
      now rewrite append_empty_r.
  - destruct srcs; simpl; now rewrite append_empty_r.
  - destruct (truthy delta); simpl; [tauto | now rewrite append_empty_r].
Qed.

(** C3 (amended). Folding an event a second time right after the first
    leaves the status, the sources and the error as the first fold left
    them; the summary is left as it was too, except that a
    'tavily-summary-delta' event appends its fragment once more.  So the
    fold of a status or a sources event (and of a delta whose fragment
    is empty) is idempotent. *)
Theorem second_fold_only_repeats_the_fragment
  (st : State) (d : DataStreamDelta.t) :
  let once := applyDelta st d in
  let twice := applyDelta once d in
  status twice = status once
  /\ sources twice = sources once
  /\ error twice = error once
  /\ summary twice = summary once +:+ appendedFragment d
  /\ (appendedFragment d = "" -> twice = once).
Proof.
  cbv zeta.
  destruct (other_fields_applyDelta st d) as (Hstatus & Herror & Hsummary).
  assert (Hsources : sources (applyDelta (applyDelta st d) d)
                     = sources (applyDelta st d)).
  { rewrite !sources_applyDelta. apply appendUnique_idempotent. }
  repeat split; try assumption.
  intros Hempty. apply State_eq; try assumption.
  now rewrite Hsummary, Hempty, append_empty_r.
Qed.

(** The 'Summarizing...' event of the overlapping call, delivered twice. *)
Lemma second_fold_only_repeats_the_fragment_witness :
  let st := initialState None in
  let d := summarizingEvent "call-1"
             [exampleResult "u" "first title";
              exampleResult "u" "second title"] in
  appendedFragment d = ""
  /\ applyDelta (applyDelta st d) d = applyDelta st d.
Proof.
  intros st d.
  assert (Hempty : appendedFragment d = "") by reflexivity.
  split; [exact Hempty|].
  exact (proj2 (proj2 (proj2 (proj2
           (second_fold_only_repeats_the_fragment st d)))) Hempty).
Defined.

(** ** The error event on the client (C10) *)

(** C10. The event the outer [catch] writes has the error status and
    the error's message and no [sources], no [summary] and no [delta]
    field.  Folding it into any state of the component sets the status,
    sets the error to the message (a message that is the empty string
    leaves the error as it was), and leaves the source list and the
    summary text as they were. *)
Theorem error_event_leaves_sources_and_summary
  (toolCallId message : string) (st : State) :
  snd (catchBlock toolCallId message)
  = [WriteData (errorEvent toolCallId message)]
  /\ statusOf (errorEvent toolCallId message) = Some ErrorOccurred
  /\ DataStreamDelta.content (errorEvent toolCallId message)
     = ContentObject {| TavilyContent.toolCallId := toolCallId;
                        TavilyContent.status := Some ErrorOccurred;
                        TavilyContent.sources := None;
                        TavilyContent.delta := None;
                        TavilyContent.summary := None;
                        TavilyContent.error := Some message |}
  /\ applyDelta st (errorEvent toolCallId message)
     = {| status := ErrorOccurred;
          sources := sources st;
          summary := summary st;
          error := if String.eqb message "" then error st else Some message |}.
Proof.
  repeat split.
  unfold applyDelta, errorEvent, statusEvent.
  cbn [DataStreamDelta.content DataStreamDelta.type TavilyContent.status
         TavilyContent.sources TavilyContent.summary TavilyContent.error
         whenSome truthy].
  destruct (String.eqb message ""); reflexivity.
Qed.

(** ** The scenarios of the specification, run on the model *)

(** Two queries return the same url under two titles: the component
    shows the url once, with the title of the batch merged first. *)
Example overlapping_urls_displayed_once :
  map TavilySource.title
    (uniqueSources
       (sources
          (processStream "call-1"
             (written (snd (execute overlapWorld ["a"; "b"])))
             (initialState None))))
  = ["first title"; "other"].
Proof. vm_compute. reflexivity. Qed.

(** The events of another call on the same stream are not folded. *)
Example other_calls_are_filtered_out :
  processStream "call-9"
    (written (snd (execute overlapWorld ["a"; "b"]))) (initialState None)
  = initialState None.
Proof. vm_compute. reflexivity. Qed.

(** The statuses of a complete call, in the order written. *)
Example statuses_of_a_complete_call :
  omap statusOf (written (snd (execute overlapWorld ["a"; "b"])))
  = [Searching; Summarizing; Complete].
Proof. vm_compute. reflexivity. Qed.

(** A search that never settles keeps the call at its first event. *)
Example unsettled_search_blocks_the_call :
  execute
    {| World.TAVILY_API_KEY := World.TAVILY_API_KEY overlapWorld;
       World.uuid := "call-4";
       World.fetch := World.fetch overlapWorld;
       World.completionOrder := [1];
       World.streamText := World.streamText overlapWorld |}
    ["a"; "b"]
  = (Pending, [WriteData (searchingEvent "call-4")]).
Proof. vm_compute. reflexivity. Qed.

(** An empty credential counts as absent. *)
Example empty_credential_is_absent :
  execute
    {| World.TAVILY_API_KEY := Some "";
       World.uuid := "call-5";
       World.fetch := World.fetch overlapWorld;
       World.completionOrder := [0; 1];
       World.streamText := World.streamText overlapWorld |}
    ["a"; "b"]
  = (Throw "Tavily API key not configured.", []).
Proof. vm_compute. reflexivity. Qed.

(** More than five results for one query: five are kept. *)
Example at_most_five_results_per_query :
  length
    (relevantResults
       {| TavilySearchResponse.query := "a";
          TavilySearchResponse.response_time := 1;
          TavilySearchResponse.results :=
            map (fun title => exampleResult title title)
              ["1"; "2"; "3"; "4"; "5"; "6"; "7"] |})
  = 5.
Proof. reflexivity. Qed.

(** A batch that repeats a url within itself: the filter of
    [appendUnique] tests against the state only, so the state keeps both
    records, and [uniqueSources] drops the second for display. *)
Example repeated_url_within_one_batch :
  let batch := sourcesEvent "call-1"
                 [serializeSearchResult (exampleResult "u" "first title");
                  serializeSearchResult (exampleResult "u" "second title")] in
  let st := applyDelta (initialState None) batch in
  map TavilySource.title (sources st) = ["first title"; "second title"]
  /\ map TavilySource.title (uniqueSources (sources st)) = ["first title"].
Proof. vm_compute. split; reflexivity. Qed.

(** * Further properties of the code *)

(** ** The call identifier *)

Lemma small_draw_cases (r : N) :
  (r < 16)%N -> In r (map N.of_nat (seq 0 16)).
Proof.
  intros Hr. apply in_map_iff. exists (N.to_nat r). split.
  - apply N2Nat.id.
  - apply in_seq. lia.
Qed.

Lemma replacement_shape (c : ascii) (r : N) :
  (r < 16)%N ->
  Ascii.eqb c "x"%char || Ascii.eqb c "y"%char = true ->
  exists digit,
    UUID.replacement c r = String digit EmptyString
    /\ (if Ascii.eqb c "x"%char then isLowerHex digit
        else isVariantDigit digit) = true.
Proof.
  intros Hr Hc. apply small_draw_cases in Hr. unfold UUID.replacement.
  destruct (Ascii.eqb c "x"%char) eqn:Hx.
  - cbn [map seq] in Hr.
    repeat (destruct Hr as [<-|Hr]; [eexists; split; reflexivity|]).
    destruct Hr.
  - cbn [map seq] in Hr.
    repeat (destruct Hr as [<-|Hr]; [eexists; split; reflexivity|]).
    destruct Hr.
Qed.

Lemma replaceXY_shape (draws : nat -> N) (s : string) (k : nat) :
  (forall k, (draws k < 16)%N) ->
  hasShape s (UUID.replaceXY s draws k) = true.
Proof.
  intros Hdraws. revert k. induction s as [|c rest IH]; intros k.
  - reflexivity.
  - cbn [UUID.replaceXY].
    destruct (Ascii.eqb c "x"%char || Ascii.eqb c "y"%char) eqn:Hc.
    + destruct (replacement_shape c (draws k) (Hdraws k) Hc)
        as (digit & -> & Hdigit).
      rewrite append_cons. change (EmptyString +:+ ?x) with x.
      cbn [hasShape]. rewrite IH, andb_true_r.
      destruct (Ascii.eqb c "x"%char); [exact Hdigit|].
      apply orb_true_iff in Hc as [Hc|Hc]; [discriminate|].
      now rewrite Hc.
    + apply orb_false_iff in Hc as [Hx Hy].
      cbn [hasShape]. now rewrite Hx, Hy, IH, Ascii.eqb_refl.
Qed.

Lemma hasShape_length (template u : string) :
  hasShape template u = true -> String.length u = String.length template.
Proof.
  revert u. induction template as [|t template IH]; intros [|c u] H;
    try discriminate; [reflexivity|].
  cbn [hasShape] in H. apply andb_true_iff in H as [_ H].
  cbn [String.length]. now rewrite (IH u H).
Qed.

(** X1. Whatever [Math.random] draws, the identifier has the shape of a
    version-4 UUID: 36 characters, a lowercase hexadecimal digit for
    each [x] of the template, one of [8], [9], [a], [b] for its [y], and
    the hyphens and the [4] of the template in their places. *)
Theorem generateUUID_is_a_version4_uuid (draws : nat -> N) :
  (forall k, (draws k < 16)%N) ->
  String.length (UUID.generateUUID draws) = 36
  /\ hasShape "xxxxxxxx-xxxx-4xxx-yxxx-xxxxxxxxxxxx" (UUID.generateUUID draws)
     = true.
Proof.
  intros Hdraws.
  pose proof (replaceXY_shape draws UUID.template 0 Hdraws) as Hshape.
  split; [|exact Hshape].
  apply hasShape_length in Hshape. exact Hshape.
Qed.

Lemma generateUUID_is_a_version4_uuid_witness :
  let draws := fun k => N.of_nat (k mod 16) in
  UUID.generateUUID draws = "01234567-89ab-4cde-b012-3456789abcde"
  /\ String.length (UUID.generateUUID draws) = 36.
Proof.
  intros draws. split; [vm_compute; reflexivity|].
  refine (proj1 (generateUUID_is_a_version4_uuid draws _)).
  intros k. unfold draws.
  pose proof (Nat.mod_upper_bound k 16). lia.
Defined.

(** ** [Promise.all] resolves only when every promise has *)

Lemma emptySlots_fill {A : Type} (values : list (option A)) (i : nat) (v : A) :
  values !! i = Some None ->
  emptySlots values = S (emptySlots (<[i := Some v]> values)).
Proof.
  unfold emptySlots. revert i.
  induction values as [|slot values IH]; intros [|i] Hi; try discriminate.
  - cbn in Hi. injection Hi as ->. reflexivity.
  - cbn in Hi. cbn [insert list_insert List.filter].
    change (list_insert i (Some v) values) with (<[i := Some v]> values).
    destruct slot; cbn [length]; now rewrite (IH i Hi).
Qed.

Lemma emptySlots_none {A : Type} (values : list (option A)) (j : nat) :
  emptySlots values = 0 -> values !! j <> Some None.
Proof.
  unfold emptySlots. revert j.
  induction values as [|slot values IH]; intros [|j] H Hj; try discriminate.
  - cbn in Hj. injection Hj as ->. discriminate H.
  - cbn in Hj. cbn [List.filter] in H.
    destruct slot; [|discriminate H]. exact (IH j H Hj).
Qed.

Lemma omap_id_full {A : Type} (values : list (option A)) :
  emptySlots values = 0 ->
  Forall2 (fun slot v => slot = Some v) values (omap id values).
Proof.
  unfold emptySlots. induction values as [|slot values IH]; intros H.
  - constructor.
  - cbn [List.filter] in H. destruct slot as [v|]; [|discriminate H].
    csimpl. constructor; [reflexivity | now apply IH].
Qed.

Section PromiseAllSound.
Context {A : Type}.
Variable promises : list (Completion A).

Lemma slotsAgree_fill (values : list (option A)) (i : nat) (v : A) :
  slotsAgree promises values -> promises !! i = Some (Return v) ->
  slotsAgree promises (<[i := Some v]> values).
Proof using Type.
  intros [Hlen Hslots] Hp. split; [now rewrite length_insert|].
  intros j x Hj. destruct (decide (i = j)) as [->|Hne].
  - rewrite list_lookup_insert_eq in Hj.
    + now injection Hj as ->.
    + rewrite Hlen. eapply lookup_lt_Some. eassumption.
  - rewrite list_lookup_insert_ne in Hj by assumption. now apply Hslots.
Qed.

Lemma slotsAgree_full (values : list (option A)) :
  slotsAgree promises values -> emptySlots values = 0 ->
  Forall2 (fun p v => p = Return v) promises (omap id values).
Proof using Type.
  intros [Hlen Hslots] Hfull. apply omap_id_full in Hfull.
  apply Forall2_same_length_lookup. split.
  - rewrite <- Hlen. eapply Forall2_length. eassumption.
  - intros j p v Hp Hv.
    destruct (Forall2_lookup_r _ _ _ _ _ Hfull Hv) as (slot & Hslot & ->).
    apply Hslots in Hslot. congruence.
Qed.

Lemma resolveElements_sound (order : list nat) :
  forall (slots : list (option A)) (values : list A),
    slotsAgree promises slots ->
    resolveElements promises slots (emptySlots slots) order = Return values ->
    Forall2 (fun p v => p = Return v) promises values
    /\ forall j, slots !! j = Some None -> In j order.
Proof using Type.
  induction order as [|i later IH]; intros slots values Hagree Hres;
    [discriminate|].
  cbn [resolveElements] in Hres.
  assert (Hskip :
            resolveElements promises slots (emptySlots slots) later
            = Return values ->
            Forall2 (fun p v => p = Return v) promises values
            /\ forall j, slots !! j = Some None -> In j (i :: later)).
  { intros H. destruct (IH slots values Hagree H) as [H1 H2].
    split; [exact H1|]. intros j Hj. right. now apply H2. }
  destruct (promises !! i) as [[v|message|]|] eqn:Hp;
    destruct (slots !! i) as [[x|]|] eqn:Hslot; try (now apply Hskip);
    try discriminate.
  pose proof (emptySlots_fill slots i v Hslot) as Hcount.
  pose proof (slotsAgree_fill slots i v Hagree Hp) as Hagree'.
  rewrite Hcount in Hres.
  destruct (emptySlots (<[i := Some v]> slots)) as [|n] eqn:Hrest.
  - injection Hres as <-. split; [now apply slotsAgree_full|].
    intros j Hj. destruct (decide (i = j)) as [->|Hne]; [now left|].
    exfalso. apply (emptySlots_none _ j Hrest).
    now rewrite list_lookup_insert_ne.
  - cbn [Nat.sub] in Hres. rewrite <- Hrest in Hres.
    destruct (IH _ values Hagree' Hres) as [H1 H2].
    split; [exact H1|]. intros j Hj.
    destruct (decide (i = j)) as [->|Hne]; [now left|].
    right. apply H2. now rewrite list_lookup_insert_ne.
Qed.

End PromiseAllSound.

Lemma emptySlots_replicate {A : Type} (n : nat) :
  emptySlots (replicate n (@None A)) = n.
Proof.
  unfold emptySlots. induction n as [|n IH]; [reflexivity|].
  cbn [replicate List.filter length]. now rewrite IH.
Qed.

(** When [Promise.all] resolves, every promise has been fulfilled, its
    index is in the completion order, and the values are those of the
    promises, in the order of the promises. *)
Lemma Promise_all_sound {A : Type} (promises : list (Completion A))
  (order : list nat) (values : list A) :
  Promise_all promises order = Return values ->
  Forall2 (fun p v => p = Return v) promises values
  /\ forall j, j < length promises -> In j order.
Proof.
  unfold Promise_all. intros Hres.
  destruct (decide (promises = [])) as [->|Hnil].
  { injection Hres as <-. split; [constructor|]. cbn. lia. }
  assert (Hres' : resolveElements promises
                    (replicate (length promises) None)
                    (emptySlots (replicate (length promises) (@None A)))
                    order = Return values).
  { rewrite emptySlots_replicate. destruct promises; [congruence | exact Hres]. }
  apply resolveElements_sound in Hres' as [H1 H2].
  - split; [exact H1|]. intros j Hj. apply H2.
    now apply lookup_replicate_2.
  - split; [apply length_replicate|].
    intros j v Hj. apply lookup_replicate in Hj as [Hj _]. discriminate.
Qed.

Lemma resolveElements_no_throw {A : Type} (promises : list (Completion A))
  (order : list nat) :
  (forall i message, promises !! i <> Some (Throw message)) ->
  forall slots remaining message,
    resolveElements promises slots remaining order <> Throw message.
Proof.
  intros Hp. induction order as [|i later IH]; intros slots remaining message;
    [discriminate|].
  cbn [resolveElements].
  destruct (promises !! i) as [[v|m|]|] eqn:Hi;
    destruct (slots !! i) as [[x|]|]; try apply IH.
  - destruct remaining as [|[|n]]; [apply IH | discriminate | apply IH].
  - exfalso. exact (Hp i m Hi).
Qed.

(** The searches never reject, so [Promise.all] over them never does. *)
Lemma Promise_all_searches_never_throw (w : World.t) (queries : list string)
  (message : string) :
  Promise_all (searchPromises w queries) (World.completionOrder w)
  <> Throw message.
Proof.
  unfold Promise_all. destruct (searchPromises w queries) eqn:Hps;
    [discriminate|].
  rewrite <- Hps. apply resolveElements_no_throw.
  intros i m Hi. unfold searchPromises in Hi.
  rewrite list_lookup_imap in Hi.
  destruct (queries !! i) as [query|]; [|discriminate].
  cbn in Hi. injection Hi as Hi.
  exact (searchQuery_never_throws _ _ _ Hi).
Qed.

(** ** The shape of every trace of [execute] *)

(** The three ways a call can go. *)
Lemma execute_cases (w : World.t) (queries : list string) :
  (credentialAbsent w
   /\ execute w queries = (Throw "Tavily API key not configured.", []))
  \/ (~ credentialAbsent w
      /\ execute w queries
         = (Pending, [WriteData (searchingEvent (generateUUID w))]))
  \/ (~ credentialAbsent w
      /\ exists responses,
          Promise_all (searchPromises w queries) (World.completionOrder w)
          = Return responses).
Proof.
  destruct (truthy (World.TAVILY_API_KEY w)) as [apiKey|] eqn:Hcred.
  - assert (Hkey : ~ credentialAbsent w)
      by (unfold credentialAbsent; congruence).
    right.
    destruct (Promise_all (searchPromises w queries) (World.completionOrder w))
      as [responses|message|] eqn:Hall.
    + right. split; [exact Hkey|]. now exists responses.
    + exfalso. exact (Promise_all_searches_never_throw _ _ _ Hall).
    + left. split; [exact Hkey|]. now apply execute_pending.
  - left. split; [exact Hcred|]. now apply execute_no_key.
Qed.

Lemma sourceBatches_In (toolCallId : string)
  (responses : list TavilySearchResponse.t) (d : DataStreamDelta.t) :
  In d (sourceBatches toolCallId responses) ->
  exists response,
    In response responses
    /\ TavilySearchResponse.results response <> []
    /\ d = sourcesEvent toolCallId
             (map serializeSearchResult (relevantResults response)).
Proof.
  unfold sourceBatches. rewrite in_flat_map. intros (response & Hin & Hd).
  exists response. split; [exact Hin|].
  destruct (TavilySearchResponse.results response) eqn:Hres;
    [destruct Hd|].
  destruct Hd as [<-|[]]. split; [discriminate | reflexivity].
Qed.

Lemma relevantResults_length (response : TavilySearchResponse.t) :
  length (relevantResults response) <= 5
  /\ (TavilySearchResponse.results response <> [] ->
      1 <= length (relevantResults response)).
Proof.
  unfold relevantResults. rewrite length_firstn. split; [lia|].
  destruct (TavilySearchResponse.results response); [congruence|].
  cbn [length]. lia.
Qed.

(** X2. Every 'tavily-search-sources' event that [execute] writes
    carries at least one and at most five source records. *)
Theorem source_batches_carry_one_to_five
  (w : World.t) (queries : list string) (d : DataStreamDelta.t) :
  In d (written (snd (execute w queries))) ->
  isSourcesBatch d = true ->
  exists srcs, sourcesOf d = Some srcs /\ 1 <= length srcs <= 5.
Proof.
  intros Hin Hbatch.
  destruct (execute_cases w queries)
    as [[_ Hrun]|[[_ Hrun]|(Hkey & responses & Hall)]].
  - rewrite Hrun in Hin. destruct Hin.
  - rewrite Hrun in Hin. destruct Hin as [<-|[]]. discriminate.
  - rewrite (written_execute_resolved _ _ _ Hkey Hall) in Hin.
    cbv zeta in Hin. destruct Hin as [<-|Hin]; [discriminate|].
    apply in_app_iff in Hin as [Hin|Hin].
    + apply sourceBatches_In in Hin as (response & _ & Hne & ->).
      eexists. split; [reflexivity|]. rewrite length_map.
      destruct (relevantResults_length response) as [H5 H1].
      split; [now apply H1 | exact H5].
    + exfalso. destruct (accumulated responses) as [|x xs].
      * destruct Hin as [<-|[]]. discriminate.
      * destruct Hin as [<-|Hin]; [discriminate|].
        apply in_app_iff in Hin as [Hin|Hin].
        -- apply summaryDeltas_type in Hin. unfold isSourcesBatch in Hbatch.
           rewrite Hin in Hbatch. discriminate.
        -- destruct (TextStream.ending _) as [[]| |];
             [destruct Hin as [<-|[]]; discriminate
             |destruct Hin as [<-|[]]; discriminate
             |destruct Hin].
Qed.

Lemma source_batches_carry_one_to_five_witness :
  let d := sourcesEvent "call-1"
             [serializeSearchResult (exampleResult "u" "second title");
              serializeSearchResult (exampleResult "v" "other")] in
  In d (written (snd (execute overlapWorld ["a"; "b"])))
  /\ exists srcs, sourcesOf d = Some srcs /\ 1 <= length srcs <= 5.
Proof.
  intros d.
  assert (Hin : In d (written (snd (execute overlapWorld ["a"; "b"]))))
    by (vm_compute; tauto).
  split; [exact Hin|].
  exact (source_batches_carry_one_to_five overlapWorld ["a"; "b"] d Hin
           eq_refl).
Defined.

Lemma accumulated_length (responses : list TavilySearchResponse.t) :
  length (accumulated responses) <= 5 * length responses.
Proof.
  unfold accumulated. induction responses as [|response rest IH];
    [cbn; lia|].
  cbn [flat_map length]. rewrite length_app.
  destruct (relevantResults_length response) as [H5 _]. lia.
Qed.

Lemma resolved_responses_length (w : World.t) (queries : list string)
  (responses : list TavilySearchResponse.t) :
  Promise_all (searchPromises w queries) (World.completionOrder w)
  = Return responses ->
  length responses = length queries.
Proof.
  intros Hall. apply Promise_all_sound in Hall as [Hall _].
  apply Forall2_length in Hall. now rewrite searchPromises_length in Hall.
Qed.

(** X3. However many records the provider answers with, a call over
    [n] queries never puts more than [5 * n] sources in an event or in
    its result. *)
Theorem sources_are_bounded_by_the_queries
  (w : World.t) (queries : list string) :
  (forall d srcs,
      In d (written (snd (execute w queries))) ->
      sourcesOf d = Some srcs ->
      length srcs <= 5 * length queries)
  /\ (forall result,
         fst (execute w queries) = Return result ->
         length (ToolResult.sources result) <= 5 * length queries).
Proof.
  destruct (execute_cases w queries)
    as [[_ Hrun]|[[_ Hrun]|(Hkey & responses & Hall)]].
  - rewrite Hrun. split; [intros d srcs []|discriminate].
  - rewrite Hrun. split; [|discriminate].
    intros d srcs [<-|[]] Hsrcs. injection Hsrcs as <-. cbn. lia.
  - pose proof (resolved_responses_length _ _ _ Hall) as Hlen.
    pose proof (accumulated_length responses) as Hacc.
    rewrite Hlen in Hacc. split.
    + intros d srcs Hin Hsrcs.
      rewrite (written_execute_resolved _ _ _ Hkey Hall) in Hin.
      cbv zeta in Hin.
      destruct Hin as [<-|Hin];
        [injection Hsrcs as <-; cbn; lia|].
      apply in_app_iff in Hin as [Hin|Hin].
      * apply sourceBatches_In in Hin as (response & Hresp & _ & ->).
        injection Hsrcs as <-. rewrite length_map.
        destruct (relevantResults_length response) as [H5 _].
        apply (In_nth_error responses) in Hresp as [k Hk].
        assert (k < length responses)
          by (apply nth_error_Some; congruence).
        lia.
      * destruct (accumulated responses) as [|x xs] eqn:Heq.
        { destruct Hin as [<-|[]]. injection Hsrcs as <-. cbn. lia. }
        destruct Hin as [<-|Hin].
        { injection Hsrcs as <-. cbn [length map] in *.
          rewrite ?length_map. lia. }
        apply in_app_iff in Hin as [Hin|Hin].
        { unfold summaryDeltas in Hin. apply in_map_iff in Hin as (x0 & <- & _).
          discriminate. }
        destruct (TextStream.ending _) as [[]| |].
        -- destruct Hin as [<-|[]]. injection Hsrcs as <-.
           cbn [length map] in *. rewrite ?length_map. lia.
        -- destruct Hin as [<-|[]]. discriminate.
        -- destruct Hin.
    + intros result Hres.
      rewrite (execute_resolved _ _ _ Hkey Hall) in Hres. cbv zeta in Hres.
      destruct (accumulated responses) as [|x xs] eqn:Heq.
      * injection Hres as <-. cbn. lia.
      * destruct (TextStream.ending _) as [[]| |];
          [|injection Hres as <-; cbn; lia | discriminate].
        injection Hres as <-. cbn [completeResult ToolResult.sources].
        cbn [length map] in *. rewrite ?length_map. lia.
Qed.

Lemma sorted_app_bound (n : nat) (l1 l2 : list nat) :
  Forall (fun x => x <= n) l1 -> Forall (fun y => n <= y) l2 ->
  StronglySorted le l1 -> StronglySorted le l2 ->
  StronglySorted le (l1 ++ l2).
Proof.
  intros H1 H2 S1 S2. induction S1 as [|x l1 S1 IH Hx]; [exact S2|].
  inversion H1 as [|? ? Hxn H1']; subst. cbn [app]. constructor.
  - now apply IH.
  - apply Forall_app. split; [exact Hx|].
    eapply Forall_impl; [exact H2|]. cbn. intros y Hy. lia.
Qed.

Lemma sorted_constant (n : nat) (l : list nat) :
  Forall (fun x => x = n) l -> StronglySorted le l.
Proof.
  induction 1 as [|x l Hx Hl IH]; constructor; [exact IH|].
  eapply Forall_impl; [exact Hl|]. cbn. intros y Hy. lia.
Qed.

Lemma phase_batches (toolCallId : string)
  (responses : list TavilySearchResponse.t) :
  Forall (fun x => x = 1) (map phase (sourceBatches toolCallId responses)).
Proof.
  apply List.Forall_forall. intros x Hx.
  apply in_map_iff in Hx as (d & <- & Hd).
  apply sourceBatches_type in Hd. unfold phase. now rewrite Hd.
Qed.

Lemma phase_deltas (toolCallId : string) (fragments : list string) :
  Forall (fun x => x = 3) (map phase (summaryDeltas toolCallId fragments)).
Proof.
  apply List.Forall_forall. intros x Hx.
  apply in_map_iff in Hx as (d & <- & Hd).
  apply summaryDeltas_type in Hd. unfold phase. now rewrite Hd.
Qed.

(** X4. The events of a call are written in the order of the phases of
    the protocol: the 'Searching...' status, then the source batches,
    then the 'Summarizing...' status, then the summary fragments, then
    the terminal status.  No batch follows 'Summarizing...' and no
    fragment precedes it. *)
Theorem events_follow_the_phases (w : World.t) (queries : list string) :
  StronglySorted le (map phase (written (snd (execute w queries)))).
Proof.
  destruct (execute_cases w queries)
    as [[_ Hrun]|[[_ Hrun]|(Hkey & responses & Hall)]].
  - rewrite Hrun. constructor.
  - rewrite Hrun. repeat constructor.
  - rewrite (written_execute_resolved _ _ _ Hkey Hall). cbv zeta.
    cbn [map]. constructor; [|apply List.Forall_forall; intros; cbn; lia].
    rewrite map_app.
    apply (sorted_app_bound 1).
    + eapply Forall_impl; [apply phase_batches|]. cbn. intros; lia.
    + destruct (accumulated responses) as [|x xs].
      { repeat constructor. }
      cbn [map]. constructor; [cbn; lia|]. rewrite map_app.
      apply Forall_app. split.
      * eapply Forall_impl; [apply phase_deltas|]. cbn. intros; lia.
      * destruct (TextStream.ending _) as [[]| |]; repeat constructor.
    + eapply sorted_constant, phase_batches.
    + destruct (accumulated responses) as [|x xs].
      { repeat constructor. }
      cbn [map]. rewrite map_app.
      change (StronglySorted le
                ([phase (summarizingEvent (generateUUID w) (x :: xs))]
                 ++ (map phase (summaryDeltas (generateUUID w)
                                  (TextStream.fragments
                                     (World.streamText w
                                        (summarizationPrompt queries (x :: xs)))))
                     ++ map phase
                          match TextStream.ending
                                  (World.streamText w
                                     (summarizationPrompt queries (x :: xs)))
                          with
                          | Return _ =>
                              [completeEvent (generateUUID w) (x :: xs)
                                 (concatFragments
                                    (TextStream.fragments
                                       (World.streamText w
                                          (summarizationPrompt queries
                                             (x :: xs)))))]
                          | Throw message =>
                              [errorEvent (generateUUID w) message]
                          | Pending => []
                          end))).
      apply (sorted_app_bound 2).
      * repeat constructor.
      * apply Forall_app. split.
        -- eapply Forall_impl; [apply phase_deltas|]. cbn. intros; lia.
        -- destruct (TextStream.ending _) as [[]| |]; repeat constructor.
      * repeat constructor.
      * apply (sorted_app_bound 3).
        -- eapply Forall_impl; [apply phase_deltas|]. cbn. intros; lia.
        -- destruct (TextStream.ending _) as [[]| |]; repeat constructor.
        -- eapply sorted_constant, phase_deltas.
        -- destruct (TextStream.ending _) as [[]| |]; repeat constructor.
Qed.

Lemma isTerminal_batches (toolCallId : string)
  (responses : list TavilySearchResponse.t) :
  Forall (fun d => isTerminal d = false) (sourceBatches toolCallId responses).
Proof.
  apply List.Forall_forall. intros d Hd. apply sourceBatches_type in Hd.
  unfold isTerminal, statusOf. now rewrite Hd.
Qed.

Lemma isTerminal_deltas (toolCallId : string) (fragments : list string) :
  Forall (fun d => isTerminal d = false) (summaryDeltas toolCallId fragments).
Proof.
  apply List.Forall_forall. intros d Hd. apply summaryDeltas_type in Hd.
  unfold isTerminal, statusOf. now rewrite Hd.
Qed.

Lemma snoc_shape {A : Type} (a c e : A) (B D : list A) :
  a :: B ++ c :: D ++ [e] = (a :: B ++ c :: D) ++ [e].
Proof. now rewrite <- app_comm_cons, <- app_assoc, <- app_comm_cons. Qed.

(** X5. A call that returns has written exactly one terminal status, as
    its last event; a call that never returns has written none; a call
    that throws has written nothing.  The last status is the error
    status exactly when the result carries an [error], and when it is
    'No results found.' the result has no sources and no source batch
    was written. *)
Theorem returned_calls_end_with_one_terminal_status
  (w : World.t) (queries : list string) :
  match fst (execute w queries) with
  | Return result =>
      exists earlier final,
        written (snd (execute w queries)) = earlier ++ [final]
        /\ isTerminal final = true
        /\ Forall (fun d => isTerminal d = false) earlier
        /\ (statusOf final = Some ErrorOccurred
            <-> ToolResult.error result <> None)
        /\ (statusOf final = Some NoResultsFound ->
            ToolResult.sources result = []
            /\ Forall (fun d => isSourcesBatch d = false) earlier)
  | Throw _ => snd (execute w queries) = []
  | Pending =>
      Forall (fun d => isTerminal d = false) (written (snd (execute w queries)))
  end.
Proof.
  destruct (execute_cases w queries)
    as [[_ Hrun]|[[_ Hrun]|(Hkey & responses & Hall)]].
  - now rewrite Hrun.
  - rewrite Hrun. cbn [fst snd]. repeat constructor.
  - rewrite (written_execute_resolved _ _ _ Hkey Hall).
    rewrite (execute_resolved _ _ _ Hkey Hall). cbv zeta.
    pose proof (isTerminal_batches (generateUUID w) responses) as Hb.
    destruct (accumulated responses) as [|x xs] eqn:Hacc.
    + cbn [fst].
      exists (searchingEvent (generateUUID w)
              :: sourceBatches (generateUUID w) responses),
        (noResultsEvent (generateUUID w)).
      split; [reflexivity|]. split; [reflexivity|].
      split; [constructor; [reflexivity | exact Hb]|].
      split; [split; [discriminate | intros H; now contradiction H]|].
      intros _. split; [reflexivity|].
      rewrite (sourceBatches_nil _ _ Hacc). repeat constructor.
    + pose proof (isTerminal_deltas (generateUUID w)
                    (TextStream.fragments
                       (World.streamText w
                          (summarizationPrompt queries (x :: xs))))) as Hd.
      assert (Hearly :
                Forall (fun d => isTerminal d = false)
                  (searchingEvent (generateUUID w)
                   :: sourceBatches (generateUUID w) responses
                   ++ summarizingEvent (generateUUID w) (x :: xs)
                   :: summaryDeltas (generateUUID w)
                        (TextStream.fragments
                           (World.streamText w
                              (summarizationPrompt queries (x :: xs)))))).
      { constructor; [reflexivity|]. apply Forall_app. split; [exact Hb|].
        constructor; [reflexivity | exact Hd]. }
      destruct (TextStream.ending _) as [[]|message|]; cbn [fst].
      * rewrite snoc_shape. eexists _, _. split; [reflexivity|].
        split; [reflexivity|]. split; [exact Hearly|].
        split; [split; [discriminate | intros H; now contradiction H]|].
        discriminate.
      * rewrite snoc_shape. eexists _, _. split; [reflexivity|].
        split; [reflexivity|]. split; [exact Hearly|].
        split; [split; [discriminate | reflexivity]|].
        discriminate.
      * rewrite app_nil_r. exact Hearly.
Qed.

(** ** Calls that share a stream *)

Lemma tagged_batches (toolCallId : string)
  (responses : list TavilySearchResponse.t) :
  Forall (fun d => toolCallIdOf d = Some toolCallId)
    (sourceBatches toolCallId responses).
Proof.
  apply List.Forall_forall. intros d Hd.
  apply sourceBatches_In in Hd as (response & _ & _ & ->). reflexivity.
Qed.

Lemma tagged_deltas (toolCallId : string) (fragments : list string) :
  Forall (fun d => toolCallIdOf d = Some toolCallId)
    (summaryDeltas toolCallId fragments).
Proof.
  apply List.Forall_forall. intros d Hd.
  apply in_map_iff in Hd as (x & <- & _). reflexivity.
Qed.

Lemma written_tagged (w : World.t) (queries : list string) :
  Forall (fun d => toolCallIdOf d = Some (generateUUID w))
    (written (snd (execute w queries))).
Proof.
  destruct (execute_cases w queries)
    as [[_ Hrun]|[[_ Hrun]|(Hkey & responses & Hall)]].
  - rewrite Hrun. constructor.
  - rewrite Hrun. repeat constructor.
  - rewrite (written_execute_resolved _ _ _ Hkey Hall). cbv zeta.
    constructor; [reflexivity|]. apply Forall_app.
    split; [apply tagged_batches|].
    destruct (accumulated responses) as [|x xs]; [repeat constructor|].
    constructor; [reflexivity|]. apply Forall_app.
    split; [apply tagged_deltas|].
    destruct (TextStream.ending _) as [[]| |]; repeat constructor.
Qed.

Lemma relevantDeltas_tagged (toolCallId other : string)
  (ds : list DataStreamDelta.t) :
  Forall (fun d => toolCallIdOf d = Some toolCallId) ds ->
  relevantDeltas other ds = if String.eqb toolCallId other then ds else [].
Proof.
  unfold relevantDeltas. induction 1 as [|d ds Hd _ IH]; cbn [List.filter].
  - now destruct (String.eqb toolCallId other).
  - rewrite IH. unfold isRelevant. unfold toolCallIdOf in Hd.
    destruct (DataStreamDelta.content d) as [| |c]; try discriminate.
    injection Hd as ->. now destruct (String.eqb toolCallId other).
Qed.

(** X6. Every event a call writes is tagged with that call's
    identifier.  So the component of the call keeps all of them, and
    the component of any other call on the same stream keeps none: its
    state is untouched by them. *)
Theorem calls_on_one_stream_do_not_interfere
  (w : World.t) (queries : list string) :
  Forall (fun d => toolCallIdOf d = Some (generateUUID w))
    (written (snd (execute w queries)))
  /\ relevantDeltas (generateUUID w) (written (snd (execute w queries)))
     = written (snd (execute w queries))
  /\ (forall other st,
         other <> generateUUID w ->
         processStream other (written (snd (execute w queries))) st = st).
Proof.
  pose proof (written_tagged w queries) as Htag.
  split; [exact Htag|]. split.
  - rewrite (relevantDeltas_tagged _ _ _ Htag). now rewrite String.eqb_refl.
  - intros other st Hother. unfold processStream.
    rewrite (relevantDeltas_tagged _ _ _ Htag).
    destruct (String.eqb (generateUUID w) other) eqn:Heq; [|reflexivity].
    apply String.eqb_eq in Heq. congruence.
Qed.

Lemma calls_on_one_stream_do_not_interfere_witness :
  processStream "call-2" (written (snd (execute overlapWorld ["a"; "b"])))
    (initialState None)
  = initialState None.
Proof.
  refine (proj2 (proj2 (calls_on_one_stream_do_not_interfere
                          overlapWorld ["a"; "b"])) "call-2" _ _).
  discriminate.
Defined.

(** ** The barrier before the first batch *)

(** X7. Nothing but the initial 'Searching...' event is written before
    every search of the batch has settled: if the trace holds any other
    event, then each query's search has completed and has a response. *)
Theorem nothing_is_written_before_all_searches_settle
  (w : World.t) (queries : list string) (d : DataStreamDelta.t) :
  In d (written (snd (execute w queries))) ->
  d <> searchingEvent (generateUUID w) ->
  forall i query,
    queries !! i = Some query ->
    In i (World.completionOrder w)
    /\ exists response,
        fst (searchQuery (World.fetch w i query) query) = Return response.
Proof.
  intros Hin Hd i query Hi.
  destruct (execute_cases w queries)
    as [[_ Hrun]|[[_ Hrun]|(Hkey & responses & Hall)]].
  - rewrite Hrun in Hin. destruct Hin.
  - rewrite Hrun in Hin. destruct Hin as [<-|[]]. congruence.
  - apply Promise_all_sound in Hall as [Hvalues Horder].
    assert (Hp : searchPromises w queries !! i
                 = Some (fst (searchQuery (World.fetch w i query) query))).
    { unfold searchPromises. now rewrite list_lookup_imap, Hi. }
    split.
    + apply Horder. eapply lookup_lt_Some. exact Hp.
    + destruct (Forall2_lookup_l _ _ _ _ _ Hvalues Hp) as (r & _ & Hr).
      now exists r.
Qed.

Lemma nothing_is_written_before_all_searches_settle_witness :
  let d := summarizingEvent "call-2" [exampleResult "v" "other"] in
  In d (written (snd (execute failingSummarizerWorld ["a"; "b"])))
  /\ In 0 (World.completionOrder failingSummarizerWorld)
  /\ exists response,
      fst (searchQuery (World.fetch failingSummarizerWorld 0 "a") "a")
      = Return response.
Proof.
  intros d.
  assert (Hin : In d (written (snd (execute failingSummarizerWorld
                                      ["a"; "b"]))))
    by (vm_compute; tauto).
  assert (Hd : d <> searchingEvent (generateUUID failingSummarizerWorld))
    by discriminate.
  split; [exact Hin|].
  exact (nothing_is_written_before_all_searches_settle
           failingSummarizerWorld ["a"; "b"] d Hin Hd 0 "a" eq_refl).
Defined.

(** ** The sources of the returned result *)

Lemma length_append (a b : string) :
  String.length (a +:+ b) = String.length a + String.length b.
Proof.
  induction a as [|x a IH]; [reflexivity|].
  rewrite append_cons. cbn [String.length]. now rewrite IH.
Qed.

Lemma codeUnits_cases (c : Ascii.ascii) :
  JSString.codeUnits c = 0 \/ JSString.codeUnits c = 1
  \/ JSString.codeUnits c = 2.
Proof.
  unfold JSString.codeUnits. cbv zeta.
  repeat (destruct (_ <? _)%N); auto.
Qed.

Lemma codeUnits_continuation (n : N) :
  JSString.codeUnits (ascii_of_N (128 + N.land n 63)) = 0.
Proof.
  assert (H : (N.land n 63 < 64)%N).
  { change 63%N with (N.ones 6). rewrite N.land_ones. now apply N.mod_lt. }
  unfold JSString.codeUnits. cbv zeta.
  rewrite N_ascii_embedding by lia.
  destruct (N.ltb_spec (128 + N.land n 63) 128); [lia|].
  destruct (N.ltb_spec (128 + N.land n 63) 192); [reflexivity | lia].
Qed.

Lemma length_highSurrogate (s : string) :
  JSString.length (JSString.highSurrogate s) = 1.
Proof.
  unfold JSString.highSurrogate. cbv zeta. cbn [JSString.length].
  now rewrite !codeUnits_continuation.
Qed.

Lemma JSString_length_app (a b : string) :
  JSString.length (a +:+ b) = JSString.length a + JSString.length b.
Proof.
  induction a as [|x a IH]; [reflexivity|].
  rewrite append_cons. cbn [JSString.length]. rewrite IH. lia.
Qed.

Lemma JSString_substring_cons (n : nat) (c : Ascii.ascii) (rest : string) :
  JSString.substring n (String c rest)
  = match JSString.codeUnits c, n with
    | 0, _ => String c (JSString.substring n rest)
    | _, 0 => ""
    | 1, S n => String c (JSString.substring n rest)
    | _, 1 => JSString.highSurrogate (String c rest)
    | _, S (S n) => String c (JSString.substring n rest)
    end.
Proof. reflexivity. Qed.

Lemma length_substring (n : nat) (s : string) :
  JSString.length (JSString.substring n s) = Nat.min n (JSString.length s).
Proof.
  revert n. induction s as [|c rest IH]; intros n.
  - cbn. lia.
  - rewrite JSString_substring_cons. cbn [JSString.length].
    destruct (codeUnits_cases c) as [H|[H|H]]; rewrite H.
    + cbn [JSString.length]. rewrite H, IH. lia.
    + destruct n as [|n]; [reflexivity|].
      cbn [JSString.length]. rewrite H, IH. lia.
    + destruct n as [|[|n]]; [reflexivity| |].
      * rewrite length_highSurrogate. lia.
      * cbn [JSString.length]. rewrite H, IH. lia.
Qed.

Lemma substring_all (n : nat) (s : string) :
  JSString.length s <= n -> JSString.substring n s = s.
Proof.
  revert n. induction s as [|c rest IH]; intros n Hn; [reflexivity|].
  rewrite JSString_substring_cons. cbn [JSString.length] in Hn.
  destruct (codeUnits_cases c) as [H|[H|H]]; rewrite H in *.
  - now rewrite IH by lia.
  - destruct n as [|n]; [lia|]. now rewrite IH by lia.
  - destruct n as [|[|n]]; [lia..|]. now rewrite IH by lia.
Qed.

Lemma substring_splits (n : nat) (s : string) :
  exists before rest,
    s = before +:+ rest
    /\ startsCharacter rest = true
    /\ (JSString.substring n s = before
        \/ (startsPair rest = true
            /\ S (JSString.length before) = n
            /\ JSString.substring n s
               = before +:+ JSString.highSurrogate rest)).
Proof.
  revert n. induction s as [|c s IH]; intros n.
  - exists "", "". repeat split. now left.
  - rewrite JSString_substring_cons.
    assert (Hstop : forall m, JSString.codeUnits c <> 0 ->
              exists before rest,
                String c s = before +:+ rest
                /\ startsCharacter rest = true
                /\ ("" = before
                    \/ startsPair rest = true
                       /\ S (JSString.length before) = m
                       /\ "" = before +:+ JSString.highSurrogate rest)).
    { intros m Hc. exists "", (String c s). split; [reflexivity|].
      split; [|now left]. cbn. now destruct (JSString.codeUnits c). }
    assert (Hgo : forall m,
              exists before rest,
                String c s = before +:+ rest
                /\ startsCharacter rest = true
                /\ (String c (JSString.substring m s) = before
                    \/ startsPair rest = true
                       /\ S (JSString.length before)
                          = JSString.codeUnits c + m
                       /\ String c (JSString.substring m s)
                          = before +:+ JSString.highSurrogate rest)).
    { intros m. destruct (IH m) as (before & rest & -> & Hrest & Hcut).
      exists (String c before), rest. split; [reflexivity|].
      split; [assumption|].
      destruct Hcut as [->|(Hpair & Hlen & ->)]; [now left|right].
      split; [assumption|]. split; [|reflexivity].
      cbn [JSString.length]. lia. }
    destruct (codeUnits_cases c) as [H|[H|H]]; rewrite H in *.
    + apply Hgo.
    + destruct n as [|n]; [now apply Hstop|]. apply Hgo.
    + destruct n as [|[|n]]; [now apply Hstop| |apply Hgo].
      exists "", (String c s). split; [reflexivity|].
      split; [cbn; now rewrite H|]. right.
      split; [cbn; now rewrite H|]. now split.
Qed.

Lemma inBasicPlane_codeUnits (c : Ascii.ascii) :
  (N_of_ascii c <? 240)%N = true -> JSString.codeUnits c <> 2.
Proof.
  unfold JSString.codeUnits. cbv zeta. intros ->.
  repeat (destruct (_ <? _)%N); discriminate.
Qed.

Lemma substring_prefix (n : nat) (s : string) :
  inBasicPlane s = true ->
  exists rest, s = JSString.substring n s +:+ rest
               /\ startsCharacter rest = true.
Proof.
  revert n. induction s as [|c s IH]; intros n Hs.
  - now exists "".
  - cbn [inBasicPlane] in Hs. apply andb_prop in Hs as [Hc Hs].
    apply inBasicPlane_codeUnits in Hc.
    rewrite JSString_substring_cons.
    assert (Hstop : JSString.codeUnits c <> 0 ->
              exists rest, String c s = "" +:+ rest
                           /\ startsCharacter rest = true).
    { intros H0. exists (String c s). split; [reflexivity|].
      cbn. now destruct (JSString.codeUnits c). }
    assert (Hgo : forall m,
              exists rest,
                String c s = String c (JSString.substring m s) +:+ rest
                /\ startsCharacter rest = true).
    { intros m. destruct (IH m Hs) as (rest & Heq & Hrest).
      exists rest. split; [|assumption]. rewrite append_cons. now f_equal. }
    destruct (codeUnits_cases c) as [H|[H|H]]; [| |contradiction];
      rewrite H in *.
    + apply Hgo.
    + destruct n as [|n]; [now apply Hstop | apply Hgo].
Qed.

Lemma isAscii_inBasicPlane (s : string) :
  isAscii s = true -> inBasicPlane s = true.
Proof.
  induction s as [|c s IH]; [reflexivity|]. cbn.
  intros H. apply andb_prop in H as [Hc Hs]. rewrite (IH Hs), andb_true_r.
  apply N.ltb_lt in Hc. apply N.ltb_lt. lia.
Qed.

Lemma isAscii_length (s : string) :
  isAscii s = true -> JSString.length s = String.length s.
Proof.
  induction s as [|c s IH]; [reflexivity|]. cbn [isAscii].
  intros H. apply andb_prop in H as [Hc Hs].
  cbn [JSString.length String.length]. rewrite (IH Hs).
  unfold JSString.codeUnits. cbv zeta. now rewrite Hc.
Qed.

Lemma isAscii_app (a b : string) :
  isAscii (a +:+ b) = isAscii a && isAscii b.
Proof.
  induction a as [|c a IH]; [reflexivity|].
  rewrite append_cons. cbn [isAscii]. now rewrite IH, andb_assoc.
Qed.

Lemma append_length_inj (a a' b b' : string) :
  a +:+ b = a' +:+ b' -> String.length a = String.length a' -> a = a'.
Proof.
  revert a'. induction a as [|x a IH]; intros [|x' a'] Heq Hlen;
    try reflexivity; try discriminate Hlen.
  rewrite !append_cons in Heq. injection Heq as -> Heq.
  f_equal. apply IH; [assumption|]. now injection Hlen.
Qed.

(** X8. The content of a source in the returned result is the start of
    the record's content followed by three dots, and the url and the
    title are the record's.  The start kept has the first 150 UTF-16
    code units of the content, or all of them when there are fewer: the
    content is the text kept followed by a rest, unless the 150th code
    unit is the first half of a surrogate pair, which is then kept
    alone after the 149 before it.  A content without such pairs is the
    text kept followed by a rest, and in an ASCII content the text kept
    is the first 150 characters. *)
Theorem returned_content_is_cut_at_150 (s : TavilySearchResult.t) :
  let content := TavilySearchResult.content s in
  exists kept,
    ResultSource.content (resultSource s) = kept +:+ "..."
    /\ ResultSource.url (resultSource s) = TavilySearchResult.url s
    /\ ResultSource.title (resultSource s) = TavilySearchResult.title s
    /\ JSString.length kept = Nat.min 150 (JSString.length content)
    /\ (JSString.length content <= 150 -> kept = content)
    /\ (exists before rest,
          content = before +:+ rest
          /\ startsCharacter rest = true
          /\ (kept = before
              \/ (startsPair rest = true
                  /\ JSString.length before = 149
                  /\ kept = before +:+ JSString.highSurrogate rest)))
    /\ (inBasicPlane content = true ->
        exists rest, content = kept +:+ rest /\ startsCharacter rest = true)
    /\ (isAscii content = true ->
        exists rest,
          content = kept +:+ rest
          /\ String.length kept = Nat.min 150 (String.length content)).
Proof.
  cbv zeta. exists (JSString.substring 150 (TavilySearchResult.content s)).
  split; [reflexivity|]. split; [reflexivity|]. split; [reflexivity|].
  split; [apply length_substring|]. split; [apply substring_all|].
  split; [|split].
  - destruct (substring_splits 150 (TavilySearchResult.content s))
      as (before & rest & Heq & Hrest & Hcut).
    exists before, rest. split; [assumption|]. split; [assumption|].
    destruct Hcut as [Hcut|(Hpair & Hlen & Hcut)]; [now left|right].
    split; [assumption|]. split; [lia | assumption].
  - apply substring_prefix.
  - intros Hascii.
    destruct (substring_prefix 150 _ (isAscii_inBasicPlane _ Hascii))
      as (rest & Heq & _).
    exists rest. split; [assumption|].
    rewrite <- (isAscii_length _ Hascii).
    rewrite <- length_substring. symmetry. apply isAscii_length.
    rewrite Heq, isAscii_app in Hascii. now apply andb_prop in Hascii.
Qed.

Lemma returned_content_is_cut_at_150_witness :
  isAscii longContent = true
  /\ ResultSource.content (resultSource (resultWithContent longContent))
     = concatFragments (replicate 15 "0123456789") +:+ "...".
Proof.
  assert (Hascii : isAscii longContent = true) by reflexivity.
  split; [exact Hascii|].
  destruct (returned_content_is_cut_at_150 (resultWithContent longContent))
    as (kept & -> & _ & _ & _ & _ & _ & _ & Hcut).
  destruct (Hcut Hascii) as (rest & Heq & Hlen).
  f_equal. symmetry.
  apply (append_length_inj _ _ "0123456789" rest); [exact Heq|].
  rewrite Hlen. reflexivity.
Defined.

(** The cut counts code units, not bytes: of 151 characters of two
    bytes each, 150 are kept. *)
Example cut_counts_code_units :
  ResultSource.content
    (resultSource (resultWithContent (concatFragments (replicate 151 eAcute))))
  = concatFragments (replicate 150 eAcute) +:+ "...".
Proof. vm_compute. reflexivity. Qed.

(** A cut that falls inside a surrogate pair keeps its first half. *)
Example cut_inside_a_surrogate_pair :
  ResultSource.content
    (resultSource
       (resultWithContent
          (concatFragments (replicate 149 "a") +:+ grinningFace +:+ "b")))
  = concatFragments (replicate 149 "a") +:+ halfGrinningFace +:+ "...".
Proof. vm_compute. reflexivity. Qed.

(** ** The displayed list, exactly *)

Lemma elem_of_urlsOf (u : string) (l : list TavilySource.t) :
  u ∈ urlsOf l <-> exists x, In x l /\ TavilySource.url x = u.
Proof.
  unfold urlsOf. rewrite elem_of_list_to_set, list_elem_of_In, in_map_iff.
  split; intros (x & H1 & H2); exists x; tauto.
Qed.

Lemma urlsOf_cons (x : TavilySource.t) (l : list TavilySource.t) :
  urlsOf (x :: l) = {[TavilySource.url x]} ∪ urlsOf l.
Proof. reflexivity. Qed.

Lemma uniqueFrom_app (l1 l2 : list TavilySource.t) (seen : gset string) :
  uniqueFrom seen (l1 ++ l2)
  = uniqueFrom seen l1 ++ uniqueFrom (seen ∪ urlsOf l1) l2.
Proof.
  revert seen. induction l1 as [|x l1 IH]; intros seen.
  - cbn [app uniqueFrom]. f_equal. unfold urlsOf. cbn.
    now rewrite (right_id_L ∅ (∪)).
  - cbn [app uniqueFrom]. rewrite urlsOf_cons.
    destruct (decide (TavilySource.url x ∈ seen)) as [Hin|Hout].
    + rewrite IH. do 2 f_equal. apply set_eq. intros u.
      rewrite !elem_of_union, elem_of_singleton.
      split; [tauto|]. intros [H|[->|H]]; tauto.
    + cbn [app]. rewrite IH. do 3 f_equal. apply set_eq. intros u.
      rewrite !elem_of_union, elem_of_singleton. tauto.
Qed.

Lemma someUrl_true (s : list TavilySource.t) (ns : TavilySource.t) :
  someUrl s ns = true <-> TavilySource.url ns ∈ urlsOf s.
Proof.
  unfold someUrl. rewrite existsb_exists, elem_of_urlsOf.
  split; intros (x & Hx & Hurl); exists x; split; try assumption.
  - now apply String.eqb_eq in Hurl.
  - now apply String.eqb_eq.
Qed.

Lemma uniqueFrom_prefiltered (s newSources : list TavilySource.t)
  (seen : gset string) :
  urlsOf s ⊆ seen ->
  uniqueFrom seen (List.filter (fun ns => negb (someUrl s ns)) newSources)
  = uniqueFrom seen newSources.
Proof.
  revert seen. induction newSources as [|ns rest IH]; intros seen Hsub;
    [reflexivity|].
  cbn [List.filter uniqueFrom].
  destruct (someUrl s ns) eqn:Hsome; cbn [negb].
  - apply someUrl_true in Hsome.
    destruct (decide (TavilySource.url ns ∈ seen)) as [_|Hout];
      [now apply IH|].
    exfalso. apply Hout, Hsub, Hsome.
  - cbn [uniqueFrom].
    destruct (decide (TavilySource.url ns ∈ seen)) as [_|Hout];
      [now apply IH|].
    f_equal. apply IH. intros u Hu. apply elem_of_union_r, Hsub, Hu.
Qed.

Lemma urlsOf_prefiltered (s newSources : list TavilySource.t) :
  urlsOf s ∪ urlsOf (List.filter (fun ns => negb (someUrl s ns)) newSources)
  = urlsOf s ∪ urlsOf newSources.
Proof.
  apply set_eq. intros u. rewrite !elem_of_union, !elem_of_urlsOf.
  split.
  - intros [H|(x & Hx & Hu)]; [now left|].
    right. apply filter_In in Hx as [Hx _]. now exists x.
  - intros [H|(x & Hx & Hu)]; [now left|].
    destruct (someUrl s x) eqn:Hsome.
    + left. apply someUrl_true, elem_of_urlsOf in Hsome. now rewrite <- Hu.
    + right. exists x. split; [|exact Hu].
      apply filter_In. split; [exact Hx|]. now rewrite Hsome.
Qed.

Lemma urlsOf_app (l1 l2 : list TavilySource.t) :
  urlsOf (l1 ++ l2) = urlsOf l1 ∪ urlsOf l2.
Proof.
  apply set_eq. intros u. rewrite elem_of_union, !elem_of_urlsOf.
  split.
  - intros (x & Hx & Hu). apply in_app_iff in Hx as [Hx|Hx];
      [left|right]; now exists x.
  - intros [(x & Hx & Hu)|(x & Hx & Hu)]; exists x;
      (split; [apply in_app_iff; tauto | exact Hu]).
Qed.

Lemma uniqueFrom_appendUnique (newSources s later : list TavilySource.t)
  (seen : gset string) :
  uniqueFrom seen (appendUnique newSources s ++ later)
  = uniqueFrom seen ((s ++ newSources) ++ later).
Proof.
  unfold appendUnique. rewrite <- !app_assoc.
  rewrite (uniqueFrom_app s), (uniqueFrom_app s (newSources ++ later)).
  f_equal. rewrite !uniqueFrom_app.
  rewrite uniqueFrom_prefiltered by (intros u Hu; now apply elem_of_union_r).
  f_equal. f_equal.
  rewrite <- !(assoc_L (∪)). f_equal. apply urlsOf_prefiltered.
Qed.

Lemma uniqueSources_fold (ds : list DataStreamDelta.t) (st : State) :
  uniqueSources (sources (fold_left applyDelta ds st))
  = uniqueSources (sources st ++ flat_map carriedSources ds).
Proof.
  unfold uniqueSources. revert st.
  induction ds as [|d ds IH]; intros st; cbn [fold_left flat_map].
  - now rewrite app_nil_r.
  - rewrite IH, sources_applyDelta, uniqueFrom_appendUnique.
    now rewrite <- app_assoc.
Qed.

Lemma uniqueFrom_sublist (l : list TavilySource.t) (seen : gset string) :
  sublist (uniqueFrom seen l) l.
Proof.
  revert seen. induction l as [|x l IH]; intros seen; [constructor|].
  cbn [uniqueFrom]. destruct (decide _); [apply sublist_cons | apply sublist_skip];
    apply IH.
Qed.

(** X9. The list the component displays is exactly what [uniqueSources]
    makes of the plain arrivals (the state's sources, then the sources
    of the call's events in order): the filter inside the fold changes
    nothing that is displayed.  The displayed records are arrivals, in
    the order in which they arrived. *)
Theorem displayed_sources_keep_arrival_order
  (toolCallId : string) (dataStream : list DataStreamDelta.t) (st : State) :
  let arrivals :=
    sources st
    ++ flat_map carriedSources (relevantDeltas toolCallId dataStream) in
  uniqueSources (sources (processStream toolCallId dataStream st))
  = uniqueSources arrivals
  /\ sublist (uniqueSources arrivals) arrivals.
Proof.
  cbv zeta. split; [apply uniqueSources_fold | apply uniqueFrom_sublist].
Qed.

(** ** What a fold keeps and what it overwrites *)

Lemma sources_fold_grow (ds : list DataStreamDelta.t) (st : State) :
  exists added, sources (fold_left applyDelta ds st) = sources st ++ added.
Proof.
  revert st. induction ds as [|d ds IH]; intros st; cbn [fold_left].
  - exists []. now rewrite app_nil_r.
  - destruct (IH (applyDelta st d)) as [added Hadded].
    rewrite Hadded, sources_applyDelta. unfold appendUnique.
    eexists. now rewrite <- app_assoc.
Qed.

(** X10. No event removes or reorders a source: the sources of the
    state after a run of the effect are the sources before it followed
    by added ones, and the displayed list after it is the displayed
    list before it followed by added cards. *)
Theorem sources_only_grow
  (toolCallId : string) (dataStream : list DataStreamDelta.t) (st : State) :
  exists added shown,
    sources (processStream toolCallId dataStream st) = sources st ++ added
    /\ uniqueSources (sources (processStream toolCallId dataStream st))
       = uniqueSources (sources st) ++ shown.
Proof.
  unfold processStream.
  destruct (sources_fold_grow (relevantDeltas toolCallId dataStream) st)
    as [added Hadded].
  exists added. eexists. split; [exact Hadded|].
  rewrite Hadded. unfold uniqueSources. now rewrite uniqueFrom_app.
Qed.

Lemma status_applyDelta (st : State) (d : DataStreamDelta.t) :
  status (applyDelta st d) = default (status st) (statusOf d).
Proof.
  unfold applyDelta, statusOf.
  destruct d as [ty [text| |c]];
    cbn [DataStreamDelta.content DataStreamDelta.type];
    try (now destruct ty).
  destruct c as [id status srcs delta summary error].
  cbn [TavilyContent.status TavilyContent.sources TavilyContent.delta
         TavilyContent.summary TavilyContent.error].
  destruct ty; try reflexivity.
  - now destruct status, srcs, (truthy summary), (truthy error).
  - now destruct srcs.
  - now destruct (truthy delta).
Qed.

Lemma error_applyDelta (st : State) (d : DataStreamDelta.t) :
  error (applyDelta st d)
  = match errorSetBy d with
    | Some message => Some message
    | None => error st
    end.
Proof.
  unfold applyDelta, errorSetBy.
  destruct d as [ty [text| |c]];
    cbn [DataStreamDelta.content DataStreamDelta.type];
    try (now destruct ty).
  destruct c as [id status srcs delta summary error].
  cbn [TavilyContent.status TavilyContent.sources TavilyContent.delta
         TavilyContent.summary TavilyContent.error].
  destruct ty; try reflexivity.
  - now destruct status, srcs, (truthy summary), (truthy error).
  - now destruct srcs.
  - now destruct (truthy delta).
Qed.

Lemma summary_applyDelta (st : State) (d : DataStreamDelta.t) :
  summary (applyDelta st d)
  = match summarySetBy d with
    | Some x => x
    | None => summary st +:+ appendedFragment d
    end.
Proof.
  unfold applyDelta, summarySetBy, appendedFragment.
  destruct d as [ty [text| |c]];
    cbn [DataStreamDelta.content DataStreamDelta.type];
    try (destruct ty; now rewrite append_empty_r).
  destruct c as [id status srcs delta summary error].
  cbn [TavilyContent.status TavilyContent.sources TavilyContent.delta
         TavilyContent.summary TavilyContent.error].
  destruct ty.
  - now rewrite append_empty_r.
  - destruct status, srcs, (truthy summary), (truthy error); cbn;
      rewrite ?append_empty_r; reflexivity.
  - destruct srcs; cbn; now rewrite append_empty_r.
  - destruct (truthy delta); cbn; rewrite ?append_empty_r; reflexivity.
Qed.

Lemma status_fold (ds : list DataStreamDelta.t) (st : State) :
  status (fold_left applyDelta ds st)
  = default (status st) (last (omap statusOf ds)).
Proof.
  revert st. induction ds as [|d ds IH]; intros st; [reflexivity|].
  cbn [fold_left]. rewrite IH, status_applyDelta. csimpl.
  destruct (statusOf d) as [x|]; [|reflexivity].
  cbn [default]. destruct (omap statusOf ds) as [|y ys] eqn:Hrest;
    [reflexivity|].
  rewrite last_cons_cons. destruct (last (y :: ys)) eqn:Hlast; [reflexivity|].
  now apply last_None in Hlast.
Qed.

Lemma error_fold (ds : list DataStreamDelta.t) (st : State) :
  error (fold_left applyDelta ds st)
  = match last (omap errorSetBy ds) with
    | Some message => Some message
    | None => error st
    end.
Proof.
  revert st. induction ds as [|d ds IH]; intros st; [reflexivity|].
  cbn [fold_left]. rewrite IH, error_applyDelta. csimpl.
  destruct (errorSetBy d) as [x|]; [|reflexivity].
  destruct (omap errorSetBy ds) as [|y ys] eqn:Hrest; [reflexivity|].
  rewrite last_cons_cons. destruct (last (y :: ys)) eqn:Hlast; [reflexivity|].
  now apply last_None in Hlast.
Qed.

(** X11. The status and the error are last-writer-wins: after a run of
    the effect the status is the one of the last of the call's status
    events (the previous status when there is none), and the error is
    the last non-empty error message carried by a status event (the
    previous error when there is none). *)
Theorem status_and_error_are_last_writer_wins
  (toolCallId : string) (dataStream : list DataStreamDelta.t) (st : State) :
  let events := relevantDeltas toolCallId dataStream in
  status (processStream toolCallId dataStream st)
  = default (status st) (last (omap statusOf events))
  /\ error (processStream toolCallId dataStream st)
     = match last (omap errorSetBy events) with
       | Some message => Some message
       | None => error st
       end.
Proof. cbv zeta. split; [apply status_fold | apply error_fold]. Qed.

Lemma concat_appendedFragment (ds : list DataStreamDelta.t) :
  concatFragments (map appendedFragment ds)
  = concatFragments (summaryFragments ds).
Proof.
  unfold concatFragments, summaryFragments.
  induction ds as [|d ds IH]; [reflexivity|].
  cbn [map flat_map foldr]. rewrite foldr_app, IH.
  unfold appendedFragment.
  destruct d as [ty [text| |c]];
    cbn [DataStreamDelta.content DataStreamDelta.type];
    try (now destruct ty).
  destruct ty; try reflexivity.
  destruct (TavilyContent.delta c) as [x|]; [|reflexivity].
  cbn [truthy option_list foldr default].
  destruct (String.eqb x "") eqn:Hx; [|reflexivity].
  apply String.eqb_eq in Hx. now subst x.
Qed.

Lemma concatFragments_app (l1 l2 : list string) :
  concatFragments (l1 ++ l2) = concatFragments l1 +:+ concatFragments l2.
Proof.
  unfold concatFragments. induction l1 as [|x l1 IH]; [reflexivity|].
  cbn [app foldr]. now rewrite IH, append_assoc.
Qed.

Lemma summary_fold_appends (ds : list DataStreamDelta.t) (st : State) :
  Forall (fun d => summarySetBy d = None) ds ->
  summary (fold_left applyDelta ds st)
  = summary st +:+ concatFragments (summaryFragments ds).
Proof.
  rewrite <- concat_appendedFragment. intros Hnone. revert st.
  induction Hnone as [|d ds Hd _ IH]; intros st.
  - cbn. now rewrite append_empty_r.
  - cbn [fold_left map]. rewrite IH, summary_applyDelta, Hd.
    unfold concatFragments. cbn [foldr]. now rewrite append_assoc.
Qed.

Lemma summary_fold_after_set (before later : list DataStreamDelta.t)
  (d : DataStreamDelta.t) (x : string) (st : State) :
  summarySetBy d = Some x ->
  Forall (fun d => summarySetBy d = None) later ->
  summary (fold_left applyDelta (before ++ d :: later) st)
  = x +:+ concatFragments (summaryFragments later).
Proof.
  intros Hd Hlater. rewrite fold_left_app. cbn [fold_left].
  rewrite (summary_fold_appends later _ Hlater), summary_applyDelta.
  now rewrite Hd.
Qed.

(** X12. The summary is rebuilt from the events alone.  While no status
    event of the call has carried a non-empty summary, the summary is the
    previous one followed by all the call's fragments in order; once
    such a status event has arrived, the summary is the one it carried
    followed by the fragments of the events after it. *)
Theorem summary_is_rebuilt_from_the_events
  (toolCallId : string) (dataStream : list DataStreamDelta.t) (st : State) :
  let events := relevantDeltas toolCallId dataStream in
  (Forall (fun d => summarySetBy d = None) events ->
   summary (processStream toolCallId dataStream st)
   = summary st +:+ concatFragments (summaryFragments events))
  /\ (forall before d later x,
         events = before ++ d :: later ->
         summarySetBy d = Some x ->
         Forall (fun d => summarySetBy d = None) later ->
         summary (processStream toolCallId dataStream st)
         = x +:+ concatFragments (summaryFragments later)).
Proof.
  cbv zeta. unfold processStream. split.
  - apply summary_fold_appends.
  - intros before d later x -> Hd Hlater.
    now apply summary_fold_after_set.
Qed.

Lemma summary_is_rebuilt_from_the_events_witness :
  summary (processStream "call-1"
             (written (snd (execute overlapWorld ["a"; "b"])))
             (initialState None))
  = "Hello, world".
Proof.
  refine (proj2 (summary_is_rebuilt_from_the_events "call-1"
                   (written (snd (execute overlapWorld ["a"; "b"])))
                   (initialState None))
            (firstn 6 (written (snd (execute overlapWorld ["a"; "b"]))))
            (completeEvent "call-1"
               [exampleResult "u" "first title";
                exampleResult "u" "second title";
                exampleResult "v" "other"] "Hello, world")
            [] "Hello, world" _ _ _).
  - vm_compute. reflexivity.
  - reflexivity.
  - constructor.
Defined.

Lemma summary_runEffects_appends (toolCallId : string)
  (snapshots : list (list DataStreamDelta.t)) (st : State) :
  Forall (fun dataStream =>
            Forall (fun d => summarySetBy d = None)
              (relevantDeltas toolCallId dataStream)) snapshots ->
  summary (runEffects toolCallId snapshots st)
  = summary st
    +:+ concatFragments
          (flat_map (fun dataStream =>
                       summaryFragments (relevantDeltas toolCallId dataStream))
             snapshots).
Proof.
  unfold runEffects. intros Hnone. revert st.
  induction Hnone as [|ds rest Hds _ IH]; intros st.
  - cbn. now rewrite append_empty_r.
  - cbn [fold_left flat_map]. rewrite IH. unfold processStream.
    rewrite (summary_fold_appends _ _ Hds), concatFragments_app.
    now rewrite append_assoc.
Qed.

(** X13. The effect folds the whole stream again each time the stream
    changes, and each run appends every fragment of its snapshot once
    more: as long as no status event has carried a summary, the summary
    after the runs is the previous one followed by the fragments of the
    first snapshot, then those of the second, and so on. *)
Theorem each_run_of_the_effect_repeats_the_fragments
  (toolCallId : string) (snapshots : list (list DataStreamDelta.t))
  (st : State) :
  Forall (fun dataStream =>
            Forall (fun d => summarySetBy d = None)
              (relevantDeltas toolCallId dataStream)) snapshots ->
  summary (runEffects toolCallId snapshots st)
  = summary st
    +:+ concatFragments
          (flat_map (fun dataStream =>
                       summaryFragments (relevantDeltas toolCallId dataStream))
             snapshots).
Proof. apply summary_runEffects_appends. Qed.

Lemma each_run_of_the_effect_repeats_the_fragments_witness :
  let d1 := summaryDeltaEvent "call-1" "Hello, " in
  let d2 := summaryDeltaEvent "call-1" "world" in
  summary (runEffects "call-1" [[d1]; [d1; d2]] (initialState None))
  = "" +:+ "Hello, Hello, world".
Proof.
  intros d1 d2.
  refine (each_run_of_the_effect_repeats_the_fragments "call-1"
            [[d1]; [d1; d2]] (initialState None) _).
  repeat constructor.
Defined.

(** ** Runs of the effect over a growing stream *)

Lemma uniqueFrom_seen_all (l : list TavilySource.t) (seen : gset string) :
  urlsOf l ⊆ seen -> uniqueFrom seen l = [].
Proof.
  induction l as [|x l IH]; intros Hsub; [reflexivity|].
  cbn [uniqueFrom]. rewrite urlsOf_cons in Hsub.
  destruct (decide (TavilySource.url x ∈ seen)) as [_|Hout].
  - apply IH. intros u Hu. apply Hsub, elem_of_union_r, Hu.
  - exfalso. apply Hout, Hsub, elem_of_union_l, elem_of_singleton.
    reflexivity.
Qed.

Lemma uniqueFrom_absorb_prefix (P R Y : list TavilySource.t) :
  (forall seen, uniqueFrom seen Y = uniqueFrom seen (P ++ R)) ->
  forall seen, uniqueFrom seen (P ++ Y) = uniqueFrom seen (P ++ R).
Proof.
  intros HY seen. rewrite (uniqueFrom_app P Y), HY, !uniqueFrom_app.
  f_equal.
  rewrite (uniqueFrom_seen_all P) by (intros u Hu; now apply elem_of_union_r).
  cbn [app]. f_equal. apply set_eq. intros u.
  rewrite !elem_of_union. tauto.
Qed.

Lemma uniqueFrom_fold_later (ds : list DataStreamDelta.t) (st : State)
  (later : list TavilySource.t) (seen : gset string) :
  uniqueFrom seen (sources (fold_left applyDelta ds st) ++ later)
  = uniqueFrom seen (sources st ++ flat_map carriedSources ds ++ later).
Proof.
  revert st. induction ds as [|d ds IH]; intros st; cbn [fold_left flat_map].
  - reflexivity.
  - rewrite IH, sources_applyDelta, uniqueFrom_appendUnique.
    now rewrite <- !app_assoc.
Qed.

Lemma uniqueFrom_runEffects (toolCallId : string)
  (snapshots : list (list DataStreamDelta.t)) (st : State)
  (later : list TavilySource.t) (seen : gset string) :
  uniqueFrom seen (sources (runEffects toolCallId snapshots st) ++ later)
  = uniqueFrom seen
      (sources st
       ++ flat_map (fun dataStream =>
                      flat_map carriedSources
                        (relevantDeltas toolCallId dataStream)) snapshots
       ++ later).
Proof.
  unfold runEffects. revert st.
  induction snapshots as [|ds rest IH]; intros st; cbn [fold_left flat_map].
  - reflexivity.
  - rewrite IH. unfold processStream. rewrite uniqueFrom_fold_later.
    now rewrite <- !app_assoc.
Qed.

Lemma carried_prefix (toolCallId : string) (p k : list DataStreamDelta.t) :
  flat_map carriedSources (relevantDeltas toolCallId (p ++ k))
  = flat_map carriedSources (relevantDeltas toolCallId p)
    ++ flat_map carriedSources (relevantDeltas toolCallId k).
Proof. unfold relevantDeltas. now rewrite List.filter_app, flat_map_app. Qed.

Lemma uniqueFrom_prefix_snapshots (toolCallId : string)
  (snapshots : list (list DataStreamDelta.t)) (ds : list DataStreamDelta.t) :
  Forall (fun p => exists k, ds = p ++ k) snapshots ->
  forall seen,
    uniqueFrom seen
      (flat_map (fun dataStream =>
                   flat_map carriedSources
                     (relevantDeltas toolCallId dataStream)) snapshots
       ++ flat_map carriedSources (relevantDeltas toolCallId ds))
    = uniqueFrom seen (flat_map carriedSources (relevantDeltas toolCallId ds)).
Proof.
  induction 1 as [|p rest [k Hk] _ IH]; intros seen; [reflexivity|].
  cbn [flat_map]. rewrite <- app_assoc. subst ds.
  transitivity
    (uniqueFrom seen
       (flat_map carriedSources (relevantDeltas toolCallId p)
        ++ flat_map carriedSources (relevantDeltas toolCallId k)));
    [|now rewrite carried_prefix].
  apply uniqueFrom_absorb_prefix. intros seen'.
  rewrite <- carried_prefix. apply IH.
Qed.

Lemma omap_prefix_nil {B : Type} (f : DataStreamDelta.t -> option B)
  (toolCallId : string) (p k : list DataStreamDelta.t) :
  omap f (relevantDeltas toolCallId (p ++ k)) = [] ->
  omap f (relevantDeltas toolCallId p) = [].
Proof.
  unfold relevantDeltas. rewrite List.filter_app, omap_app.
  intros H. now apply app_eq_nil in H as [H _].
Qed.

Lemma status_runEffects_quiet (toolCallId : string)
  (snapshots : list (list DataStreamDelta.t)) (st : State) :
  Forall (fun p => omap statusOf (relevantDeltas toolCallId p) = [])
    snapshots ->
  status (runEffects toolCallId snapshots st) = status st.
Proof.
  unfold runEffects. intros H. revert st.
  induction H as [|p rest Hp _ IH]; intros st; [reflexivity|].
  cbn [fold_left]. rewrite IH. unfold processStream.
  now rewrite status_fold, Hp.
Qed.

Lemma error_runEffects_quiet (toolCallId : string)
  (snapshots : list (list DataStreamDelta.t)) (st : State) :
  Forall (fun p => omap errorSetBy (relevantDeltas toolCallId p) = [])
    snapshots ->
  error (runEffects toolCallId snapshots st) = error st.
Proof.
  unfold runEffects. intros H. revert st.
  induction H as [|p rest Hp _ IH]; intros st; [reflexivity|].
  cbn [fold_left]. rewrite IH. unfold processStream.
  now rewrite error_fold, Hp.
Qed.

Lemma runEffects_snoc (toolCallId : string)
  (snapshots : list (list DataStreamDelta.t)) (ds : list DataStreamDelta.t)
  (st : State) :
  runEffects toolCallId (snapshots ++ [ds]) st
  = processStream toolCallId ds (runEffects toolCallId snapshots st).
Proof. unfold runEffects. now rewrite fold_left_app. Qed.

(** X14. The stream only grows, so every earlier value of [dataStream]
    is a prefix of the current one.  After the effect has run over such
    earlier values and then over the current stream, the status, the
    error and the displayed sources are those of a single run over the
    current stream; and when the last of the call's events is a status
    event with a non-empty summary, so is the summary. *)
Theorem earlier_runs_do_not_change_the_final_display
  (toolCallId : string) (snapshots : list (list DataStreamDelta.t))
  (ds : list DataStreamDelta.t) (st : State) :
  Forall (fun p => exists k, ds = p ++ k) snapshots ->
  let once := processStream toolCallId ds st in
  let many := runEffects toolCallId (snapshots ++ [ds]) st in
  status many = status once
  /\ error many = error once
  /\ uniqueSources (sources many) = uniqueSources (sources once)
  /\ (forall d x,
         last (relevantDeltas toolCallId ds) = Some d ->
         summarySetBy d = Some x ->
         summary many = x /\ summary once = x).
Proof.
  intros Hprefix. cbv zeta. rewrite runEffects_snoc.
  split; [|split; [|split]].
  - unfold processStream. rewrite !status_fold.
    destruct (last (omap statusOf (relevantDeltas toolCallId ds))) as [s|]
      eqn:Hlast; [reflexivity|].
    apply last_None in Hlast. cbn [default].
    apply status_runEffects_quiet.
    eapply Forall_impl; [exact Hprefix|]. cbn. intros p [k ->].
    now apply omap_prefix_nil in Hlast.
  - unfold processStream. rewrite !error_fold.
    destruct (last (omap errorSetBy (relevantDeltas toolCallId ds))) as [s|]
      eqn:Hlast; [reflexivity|].
    apply last_None in Hlast.
    apply error_runEffects_quiet.
    eapply Forall_impl; [exact Hprefix|]. cbn. intros p [k ->].
    now apply omap_prefix_nil in Hlast.
  - unfold uniqueSources, processStream.
    rewrite <- (app_nil_r (sources (fold_left _ _ (runEffects _ _ _)))).
    rewrite uniqueFrom_fold_later, app_nil_r.
    rewrite uniqueFrom_runEffects.
    rewrite <- (app_nil_r (sources (fold_left _ _ st))).
    rewrite uniqueFrom_fold_later, app_nil_r.
    rewrite (uniqueFrom_app (sources st) (_ ++ _)).
    rewrite (uniqueFrom_app (sources st)). f_equal.
    now apply uniqueFrom_prefix_snapshots.
  - intros d x Hlast Hd. apply last_Some in Hlast as [before Hbefore].
    unfold processStream. rewrite Hbefore.
    rewrite !(summary_fold_after_set before [] d x _ Hd) by constructor.
    split; apply append_empty_r.
Qed.

Lemma earlier_runs_do_not_change_the_final_display_witness :
  let ds := written (snd (execute overlapWorld ["a"; "b"])) in
  let many := runEffects "call-1" ([firstn 2 ds; firstn 4 ds] ++ [ds])
                (initialState None) in
  status many = Complete /\ summary many = "Hello, world".
Proof.
  intros ds many.
  assert (Hprefix : Forall (fun p => exists k, ds = p ++ k)
                      [firstn 2 ds; firstn 4 ds]).
  { repeat constructor.
    - exists (skipn 2 ds). symmetry. apply firstn_skipn.
    - exists (skipn 4 ds). symmetry. apply firstn_skipn. }
  pose proof (earlier_runs_do_not_change_the_final_display "call-1"
                [firstn 2 ds; firstn 4 ds] ds (initialState None) Hprefix)
    as (Hstatus & _ & _ & Hsummary).
  split.
  - exact Hstatus.
  - refine (proj1 (Hsummary
                     (completeEvent "call-1"
                        [exampleResult "u" "first title";
                         exampleResult "u" "second title";
                         exampleResult "v" "other"] "Hello, world")
                     "Hello, world" _ _)); reflexivity.
Defined.

(** ** The component after a whole call *)

Lemma carried_batches (toolCallId : string)
  (responses : list TavilySearchResponse.t) :
  flat_map carriedSources (sourceBatches toolCallId responses)
  = map serializeSearchResult (accumulated responses).
Proof.
  unfold sourceBatches, accumulated.
  induction responses as [|response rest IH]; [reflexivity|].
  cbn [flat_map]. rewrite flat_map_app, map_app, IH. f_equal.
  unfold relevantResults.
  destruct (TavilySearchResponse.results response); [reflexivity|].
  cbn [flat_map carriedSources sourcesEvent DataStreamDelta.content
         DataStreamDelta.type TavilyContent.sources default].
  apply app_nil_r.
Qed.

Lemma carried_deltas (toolCallId : string) (fragments : list string) :
  flat_map carriedSources (summaryDeltas toolCallId fragments) = [].
Proof. induction fragments as [|x rest IH]; [reflexivity | exact IH]. Qed.

Lemma omap_none {B : Type} (f : DataStreamDelta.t -> option B)
  (ds : list DataStreamDelta.t) :
  Forall (fun d => f d = None) ds -> omap f ds = [].
Proof.
  induction 1 as [|d ds Hd _ IH]; [reflexivity|]. csimpl. now rewrite Hd.
Qed.

Lemma statusOf_batches (toolCallId : string)
  (responses : list TavilySearchResponse.t) :
  Forall (fun d => statusOf d = None) (sourceBatches toolCallId responses).
Proof.
  apply List.Forall_forall. intros d Hd. apply sourceBatches_type in Hd.
  unfold statusOf. now rewrite Hd.
Qed.

Lemma statusOf_deltas (toolCallId : string) (fragments : list string) :
  Forall (fun d => statusOf d = None) (summaryDeltas toolCallId fragments).
Proof.
  apply List.Forall_forall. intros d Hd. apply summaryDeltas_type in Hd.
  unfold statusOf. now rewrite Hd.
Qed.

Lemma errorSetBy_batches (toolCallId : string)
  (responses : list TavilySearchResponse.t) :
  Forall (fun d => errorSetBy d = None) (sourceBatches toolCallId responses).
Proof.
  apply List.Forall_forall. intros d Hd. apply sourceBatches_type in Hd.
  unfold errorSetBy. now rewrite Hd.
Qed.

Lemma errorSetBy_deltas (toolCallId : string) (fragments : list string) :
  Forall (fun d => errorSetBy d = None) (summaryDeltas toolCallId fragments).
Proof.
  apply List.Forall_forall. intros d Hd. apply summaryDeltas_type in Hd.
  unfold errorSetBy. now rewrite Hd.
Qed.

Lemma summarySetBy_batches (toolCallId : string)
  (responses : list TavilySearchResponse.t) :
  Forall (fun d => summarySetBy d = None) (sourceBatches toolCallId responses).
Proof.
  apply List.Forall_forall. intros d Hd. apply sourceBatches_type in Hd.
  unfold summarySetBy. now rewrite Hd.
Qed.

Lemma summarySetBy_deltas (toolCallId : string) (fragments : list string) :
  Forall (fun d => summarySetBy d = None) (summaryDeltas toolCallId fragments).
Proof.
  apply List.Forall_forall. intros d Hd. apply summaryDeltas_type in Hd.
  unfold summarySetBy. now rewrite Hd.
Qed.

Lemma uniqueSources_repeat (A Y : list TavilySource.t) :
  urlsOf Y ⊆ urlsOf A -> uniqueSources (A ++ Y) = uniqueSources A.
Proof.
  intros Hsub. unfold uniqueSources. rewrite uniqueFrom_app.
  rewrite (uniqueFrom_seen_all Y); [apply app_nil_r|].
  intros u Hu. apply elem_of_union_r, Hsub, Hu.
Qed.

(** The state of the component of a call, after one run of the effect
    over everything the call has written. *)
Lemma component_after_summarizing (toolCallId : string)
  (responses : list TavilySearchResponse.t) (fragments : list string)
  (final : list DataStreamDelta.t) :
  let A := map serializeSearchResult (accumulated responses) in
  let st := fold_left applyDelta
              (searchingEvent toolCallId :: sourceBatches toolCallId responses
               ++ summarizingEvent toolCallId (accumulated responses)
               :: summaryDeltas toolCallId fragments ++ final)
              (initialState None) in
  urlsOf (flat_map carriedSources final) ⊆ urlsOf A ->
  uniqueSources (sources st) = uniqueSources A
  /\ status st = default Summarizing (last (omap statusOf final))
  /\ error st = last (omap errorSetBy final)
  /\ (Forall (fun d => summarySetBy d = None /\ appendedFragment d = "") final ->
      summary st = concatFragments fragments)
  /\ (forall x, final = [completeEvent toolCallId (accumulated responses) x] ->
      x = concatFragments fragments -> summary st = x).
Proof.
  cbv zeta. intros Hfinal. split; [|split; [|split; [|split]]].
  - rewrite uniqueSources_fold. cbn [initialState sources app flat_map].
    rewrite flat_map_app, carried_batches. cbn [flat_map].
    rewrite flat_map_app, carried_deltas. cbn [app].
    change (carriedSources (searchingEvent toolCallId)) with (@nil TavilySource.t).
    change (carriedSources (summarizingEvent toolCallId (accumulated responses)))
      with (map serializeSearchResult (accumulated responses)).
    cbn [app]. apply uniqueSources_repeat. rewrite urlsOf_app.
    intros u Hu. apply elem_of_union in Hu as [Hu|Hu]; [exact Hu|].
    now apply Hfinal.
  - rewrite status_fold. csimpl.
    rewrite omap_app, (omap_none _ _ (statusOf_batches _ _)). csimpl.
    rewrite omap_app, (omap_none _ _ (statusOf_deltas _ _)). cbn [app].
    change (statusOf (searchingEvent toolCallId)) with (Some Searching).
    change (statusOf (summarizingEvent toolCallId (accumulated responses)))
      with (Some Summarizing).
    cbn [initialState status]. rewrite !last_cons.
    destruct (last (omap statusOf final)); reflexivity.
  - rewrite error_fold. csimpl.
    rewrite omap_app, (omap_none _ _ (errorSetBy_batches _ _)). csimpl.
    rewrite omap_app, (omap_none _ _ (errorSetBy_deltas _ _)). cbn [app].
    change (errorSetBy (searchingEvent toolCallId)) with (@None string).
    change (errorSetBy (summarizingEvent toolCallId (accumulated responses)))
      with (@None string).
    cbn [initialState error]. now destruct (last (omap errorSetBy final)).
  - intros Hquiet. rewrite summary_fold_appends.
    + cbn [initialState summary].
      change (summaryFragments (?a :: ?l)) with (summaryFragments l).
      rewrite summaryFragments_app, summaryFragments_batches. cbn [app].
      change (summaryFragments (?a :: ?l)) with (summaryFragments l).
      rewrite summaryFragments_app, summaryFragments_deltas.
      rewrite concatFragments_app, <- (concat_appendedFragment final).
      assert (Hnil : concatFragments (map appendedFragment final) = "").
      { clear Hfinal. induction Hquiet as [|d ds [_ Hd] _ IH]; [reflexivity|].
        cbn [map]. unfold concatFragments in *. cbn [foldr].
        now rewrite Hd, IH. }
      rewrite Hnil. unfold concatFragments at 1. cbn [foldr].
      change ("" +:+ ?x) with x. apply append_empty_r.
    + constructor; [reflexivity|]. apply Forall_app.
      split; [apply summarySetBy_batches|].
      constructor; [reflexivity|]. apply Forall_app.
      split; [apply summarySetBy_deltas|].
      eapply Forall_impl; [exact Hquiet|]. cbn. tauto.
  - intros x -> Hx.
    destruct (summarySetBy (completeEvent toolCallId (accumulated responses) x))
      as [y|] eqn:Hset.
    + assert (y = x).
      { unfold summarySetBy, completeEvent, statusEvent in Hset.
        cbn [DataStreamDelta.type DataStreamDelta.content
               TavilyContent.summary truthy] in Hset.
        destruct (String.eqb x ""); congruence. }
      subst y.
      rewrite snoc_shape.
      rewrite (summary_fold_after_set _ [] _ x _ Hset) by constructor.
      apply append_empty_r.
    + assert (x = "").
      { unfold summarySetBy, completeEvent, statusEvent in Hset.
        cbn [DataStreamDelta.type DataStreamDelta.content
               TavilyContent.summary truthy] in Hset.
        destruct (String.eqb x "") eqn:Hx'; [|discriminate].
        now apply String.eqb_eq in Hx'. }
      rewrite summary_fold_appends.
      * cbn [initialState summary].
        change (summaryFragments (?a :: ?l)) with (summaryFragments l).
        rewrite summaryFragments_app, summaryFragments_batches. cbn [app].
        change (summaryFragments (?a :: ?l)) with (summaryFragments l).
        rewrite summaryFragments_app, summaryFragments_deltas.
        change (summaryFragments [completeEvent _ _ _]) with (@nil string).
        rewrite app_nil_r. change ("" +:+ ?z) with z. congruence.
      * constructor; [reflexivity|]. apply Forall_app.
        split; [apply summarySetBy_batches|].
        constructor; [reflexivity|]. apply Forall_app.
        split; [apply summarySetBy_deltas|].
        constructor; [exact Hset | constructor].
Qed.

(** The state of a fresh component after one run over a whole call. *)
Lemma component_after_call
  (w : World.t) (queries : list string)
  (responses : list TavilySearchResponse.t) :
  ~ credentialAbsent w ->
  Promise_all (searchPromises w queries) (World.completionOrder w)
  = Return responses ->
  let st := processStream (generateUUID w) (written (snd (execute w queries)))
              (initialState None) in
  let textStream :=
    World.streamText w (summarizationPrompt queries (accumulated responses)) in
  uniqueSources (sources st)
  = uniqueSources (map serializeSearchResult (accumulated responses))
  /\ match accumulated responses with
     | [] => status st = NoResultsFound /\ summary st = "" /\ error st = None
     | _ =>
         summary st = concatFragments (TextStream.fragments textStream)
         /\ match TextStream.ending textStream with
            | Return _ => status st = Complete /\ error st = None
            | Throw message =>
                status st = ErrorOccurred /\ error st = truthy (Some message)
            | Pending => status st = Summarizing /\ error st = None
            end
     end.
Proof.
  intros Hkey Hall. cbv zeta. unfold processStream.
  rewrite (relevantDeltas_tagged _ _ _ (written_tagged w queries)).
  rewrite String.eqb_refl.
  rewrite (written_execute_resolved _ _ _ Hkey Hall). cbv zeta.
  destruct (accumulated responses) as [|x xs] eqn:Hacc.
  - rewrite (sourceBatches_nil _ _ Hacc). repeat split.
  - rewrite <- Hacc.
    set (fragments := TextStream.fragments
                        (World.streamText w
                           (summarizationPrompt queries (accumulated responses)))).
    destruct (TextStream.ending _) as [[]|message|].
    + destruct (component_after_summarizing (generateUUID w) responses fragments
                  [completeEvent (generateUUID w) (accumulated responses)
                     (concatFragments fragments)])
        as (Hsources & Hstatus & Herror & _ & Hsummary).
      { cbn [flat_map]. rewrite app_nil_r. intros u Hu. exact Hu. }
      split; [exact Hsources|]. split; [now apply Hsummary|].
      split; [exact Hstatus | exact Herror].
    + destruct (component_after_summarizing (generateUUID w) responses fragments
                  [errorEvent (generateUUID w) message])
        as (Hsources & Hstatus & Herror & Hsummary & _).
      { intros u Hu. cbn in Hu. now apply not_elem_of_empty in Hu. }
      split; [exact Hsources|]. split; [apply Hsummary; now repeat constructor|].
      split; [exact Hstatus|]. rewrite Herror. csimpl.
      unfold errorSetBy, errorEvent, statusEvent.
      cbn [DataStreamDelta.type DataStreamDelta.content TavilyContent.error].
      cbn [truthy]. now destruct (String.eqb message "").
    + destruct (component_after_summarizing (generateUUID w) responses fragments
                  [])
        as (Hsources & Hstatus & Herror & Hsummary & _).
      { intros u Hu. cbn in Hu. now apply not_elem_of_empty in Hu. }
      split; [exact Hsources|]. split; [apply Hsummary; constructor|].
      split; [exact Hstatus | exact Herror].
Qed.

(** X15. Fold everything a call has written into a fresh component.
    The displayed sources are the call's accumulated sources without
    repeated urls.  With no source at all the status is 'No results
    found.' and the summary is empty.  Otherwise the summary is the
    concatenation of the fragments the summarizer gave, and the status
    is 'Complete', the error status with the summarizer's message as
    error, or still 'Summarizing...', as the text stream ended, threw or
    hangs. *)
Theorem component_shows_what_the_call_produced
  (w : World.t) (queries : list string)
  (responses : list TavilySearchResponse.t) :
  ~ credentialAbsent w ->
  Promise_all (searchPromises w queries) (World.completionOrder w)
  = Return responses ->
  let st := processStream (generateUUID w) (written (snd (execute w queries)))
              (initialState None) in
  let textStream :=
    World.streamText w (summarizationPrompt queries (accumulated responses)) in
  uniqueSources (sources st)
  = uniqueSources (map serializeSearchResult (accumulated responses))
  /\ match accumulated responses with
     | [] => status st = NoResultsFound /\ summary st = "" /\ error st = None
     | _ =>
         summary st = concatFragments (TextStream.fragments textStream)
         /\ match TextStream.ending textStream with
            | Return _ => status st = Complete /\ error st = None
            | Throw message =>
                status st = ErrorOccurred /\ error st = truthy (Some message)
            | Pending => status st = Summarizing /\ error st = None
            end
     end.
Proof. apply component_after_call. Qed.

Lemma component_shows_what_the_call_produced_witness :
  let w := failingSummarizerWorld in
  let st := processStream "call-2" (written (snd (execute w ["a"; "b"])))
              (initialState None) in
  status st = ErrorOccurred
  /\ error st = Some "model overloaded"
  /\ summary st = "partial".
Proof.
  intros w st.
  assert (Hkey : ~ credentialAbsent w) by (vm_compute; discriminate).
  pose (other := {| TavilySearchResponse.query := "b";
                    TavilySearchResponse.response_time := 1;
                    TavilySearchResponse.results :=
                      [exampleResult "v" "other"] |}).
  assert (Hall : Promise_all (searchPromises w ["a"; "b"])
                   (World.completionOrder w)
                 = Return [emptyResponse "a"; other])
    by (vm_compute; reflexivity).
  pose proof (component_shows_what_the_call_produced w ["a"; "b"]
                [emptyResponse "a"; other] Hkey Hall) as [_ H].
  cbv zeta in H.
  exact (conj (proj1 (proj2 H)) (conj (proj2 (proj2 H)) (proj1 H))).
Defined.

(** ** What is rendered *)

Lemma statusIs_eq (a b : TavilySearchStatus) :
  View.statusIs a b = true <-> a = b.
Proof. destruct a, b; cbn; split; congruence. Qed.

(** X16. When the state has a non-empty error, the expanded card shows
    the error text and neither the 'Searching the web...' line nor the
    tabs, whatever sources have been received.  Without an error it
    shows exactly one of the two: the 'Searching the web...' line while
    the status is 'Searching...' and nothing is displayed yet, the tabs
    otherwise. *)
Theorem body_shows_placeholder_or_tabs_or_neither (st : State) :
  let displayed := uniqueSources (sources st) in
  let shown := View.renderBody st in
  match truthy (error st) with
  | Some message =>
      View.errorText (View.render st true) = Some message
      /\ View.searchingTheWeb shown = false
      /\ View.tabs shown = None
  | None =>
      View.errorText (View.render st true) = None
      /\ if View.statusIs (status st) Searching
            && (length displayed =? 0)%nat
         then View.searchingTheWeb shown = true /\ View.tabs shown = None
         else View.searchingTheWeb shown = false
              /\ View.tabs shown = Some (View.renderTabs st)
  end.
Proof.
  cbv zeta. unfold View.render, View.renderBody.
  cbn [View.errorText View.searchingTheWeb View.tabs].
  destruct (truthy (error st)) as [message|].
  - rewrite bool_decide_true by (now exists message). cbn [negb].
    rewrite !andb_false_r. repeat split.
  - rewrite bool_decide_false by (intros [x Hx]; discriminate Hx).
    cbn [negb]. rewrite !andb_true_r. split; [reflexivity|].
    destruct (View.statusIs (status st) Searching); cbn [negb andb orb];
      [|split; reflexivity].
    destruct (length (uniqueSources (sources st))) as [|n];
      cbn; split; reflexivity.
Qed.

Lemma cards_hrefs (l : list TavilySource.t) :
  map View.href (map View.sourceCard l) = map TavilySource.url l.
Proof. rewrite map_map. reflexivity. Qed.

(** X17. The sources tab never links the same url twice.  The number
    in its trigger is the number of cards, the trigger is disabled
    exactly when there is no card, 'No sources found.' is shown only
    without cards, and a card's link text is empty only for a source
    whose title and url are both empty. *)
Theorem sources_tab_lists_each_url_once (st : State) :
  let shown := View.renderTabs st in
  NoDup (map View.href (View.cards shown))
  /\ View.sourcesCount shown = length (View.cards shown)
  /\ (View.sourcesDisabled shown = true <-> View.cards shown = [])
  /\ (View.noSourcesFound shown = true -> View.cards shown = [])
  /\ Forall2 (fun source card =>
                View.href card = TavilySource.url source
                /\ (View.label card = ""
                    <-> TavilySource.title source = ""
                        /\ TavilySource.url source = ""))
       (uniqueSources (sources st)) (View.cards shown).
Proof.
  cbv zeta. unfold View.renderTabs.
  cbn [View.cards View.sourcesCount View.sourcesDisabled View.noSourcesFound].
  assert (Hnil : forall l : list TavilySource.t,
             (length l =? 0)%nat = true <-> map View.sourceCard l = []).
  { intros [|x l]; cbn; split; congruence. }
  split; [|split; [|split; [|split]]].
  - rewrite cards_hrefs. apply uniqueFrom_NoDup.
  - now rewrite length_map.
  - apply Hnil.
  - intros H. apply andb_true_iff in H as [H _]. now apply Hnil.
  - induction (uniqueSources (sources st)) as [|source l IH];
      constructor; [|exact IH].
    split; [reflexivity|].
    unfold View.sourceCard, View.orElse. cbn [View.label].
    destruct (String.eqb (TavilySource.title source) "") eqn:Htitle.
    + apply String.eqb_eq in Htitle. rewrite Htitle. tauto.
    + apply String.eqb_neq in Htitle. tauto.
Qed.

(** X18. Fold everything a call has written into a fresh component:
    the spinner is off exactly when [execute] has returned.  It stays
    on while a search or the summarizer hangs. *)
Theorem spinner_stops_when_the_call_returns
  (w : World.t) (queries : list string) (expanded : bool) :
  View.spinner
    (View.render
       (processStream (generateUUID w) (written (snd (execute w queries)))
          (initialState None))
       expanded)
  = match fst (execute w queries) with
    | Return _ => false
    | _ => true
    end.
Proof.
  destruct (execute_cases w queries)
    as [[_ Hrun]|[[_ Hrun]|(Hkey & responses & Hall)]].
  - rewrite Hrun. reflexivity.
  - unfold processStream.
    rewrite (relevantDeltas_tagged _ _ _ (written_tagged w queries)).
    rewrite String.eqb_refl, Hrun. reflexivity.
  - pose proof (component_after_call w queries responses Hkey Hall) as [_ H].
    cbv zeta in H. rewrite (execute_resolved _ _ _ Hkey Hall) at 2. cbv zeta.
    unfold View.render. cbn [View.spinner].
    destruct (accumulated responses) as [|x xs].
    + destruct H as (-> & _). reflexivity.
    + destruct H as [_ H].
      destruct (TextStream.ending _) as [[]|message|];
        destruct H as [-> _]; reflexivity.
Qed.

(** ** The card after a reload *)

Lemma uniqueFrom_map_agree {B C : Type} (g1 g2 : B -> TavilySource.t)
  (h : TavilySource.t -> C) (l : list B) (seen : gset string) :
  (forall x, TavilySource.url (g1 x) = TavilySource.url (g2 x)) ->
  (forall x, h (g1 x) = h (g2 x)) ->
  map h (uniqueFrom seen (map g1 l)) = map h (uniqueFrom seen (map g2 l)).
Proof.
  intros Hurl Hh. revert seen. induction l as [|x l IH]; intros seen;
    [reflexivity|].
  cbn [map uniqueFrom]. rewrite <- Hurl.
  destruct (decide _); [apply IH|]. cbn [map]. now rewrite Hh, IH.
Qed.

(** X19. Reload the page after a call that completed, so that the
    component starts from the returned result and no event.  It
    displays the same urls with the same titles in the same order as
    the live component did, and the same summary; but its status is
    the initial 'Searching...', so its spinner is on. *)
Theorem reloaded_card_matches_the_live_one
  (w : World.t) (queries : list string) (result : ToolResult.t)
  (expanded : bool) :
  fst (execute w queries) = Return result ->
  ToolResult.error result = None ->
  ToolResult.sources result <> [] ->
  let live := processStream (generateUUID w)
                (written (snd (execute w queries))) (initialState None) in
  let reloaded := initialState (Some (initialResultOf result)) in
  map TavilySource.url (uniqueSources (sources reloaded))
  = map TavilySource.url (uniqueSources (sources live))
  /\ map TavilySource.title (uniqueSources (sources reloaded))
     = map TavilySource.title (uniqueSources (sources live))
  /\ summary reloaded = summary live
  /\ status live = Complete
  /\ status reloaded = Searching
  /\ View.spinner (View.render reloaded expanded) = true.
Proof.
  intros Hres Herr Hsrc. cbv zeta.
  destruct (execute_cases w queries)
    as [[_ Hrun]|[[_ Hrun]|(Hkey & responses & Hall)]];
    try (rewrite Hrun in Hres; discriminate Hres).
  pose proof (component_after_call w queries responses Hkey Hall)
    as [Hsources H].
  cbv zeta in Hsources, H.
  rewrite (execute_resolved _ _ _ Hkey Hall) in Hres. cbv zeta in Hres.
  destruct (accumulated responses) as [|x xs] eqn:Hacc.
  { injection Hres as <-. now contradiction Hsrc. }
  destruct H as [Hsummary H].
  destruct (TextStream.ending _) as [[]|message|];
    [|injection Hres as <-; discriminate Herr | discriminate Hres].
  injection Hres as <-. destruct H as [Hstatus _].
  rewrite Hsources, Hsummary, Hstatus.
  cbn [initialState initialResultOf initialSources initialSummary default
         sources summary status completeResult ToolResult.sources
         ToolResult.summary].
  unfold uniqueSources. rewrite map_map.
  split; [|split; [|split; [|split; [|split]]]]; try reflexivity.
  - now apply uniqueFrom_map_agree.
  - now apply uniqueFrom_map_agree.
  - cbn [truthy]. destruct (String.eqb _ "") eqn:Hempty; [|reflexivity].
    apply String.eqb_eq in Hempty. now rewrite Hempty.
Qed.

Lemma reloaded_card_matches_the_live_one_witness :
  let result := completeResult "call-1" "Hello, world"
                  [exampleResult "u" "first title";
                   exampleResult "u" "second title";
                   exampleResult "v" "other"] in
  fst (execute overlapWorld ["a"; "b"]) = Return result
  /\ map TavilySource.title
       (uniqueSources (sources (initialState (Some (initialResultOf result)))))
     = ["first title"; "other"].
Proof.
  intros result.
  assert (Hres : fst (execute overlapWorld ["a"; "b"]) = Return result)
    by (vm_compute; reflexivity).
  split; [exact Hres|].
  refine (eq_trans
            (proj1 (proj2 (reloaded_card_matches_the_live_one overlapWorld
                             ["a"; "b"] result true Hres eq_refl _))) _).
  - discriminate.
  - vm_compute. reflexivity.
Defined.

(** ** Batches and the full list; the order of completion *)

(** X20. The batches add up to the full list: the source list carried
    by the 'Summarizing...' and 'Complete' status events of a call is
    the concatenation, in the order written, of the lists carried by
    the 'tavily-search-sources' events written before. *)
Theorem batches_add_up_to_the_full_list
  (w : World.t) (queries : list string) (d : DataStreamDelta.t) :
  In d (written (snd (execute w queries))) ->
  statusOf d = Some Summarizing \/ statusOf d = Some Complete ->
  sourcesOf d
  = Some (flat_map carriedSources
            (List.filter isSourcesBatch (written (snd (execute w queries))))).
Proof.
  intros Hin Hstatus.
  assert (Htype : DataStreamDelta.type d = tavily_search_status).
  { unfold statusOf in Hstatus.
    destruct (DataStreamDelta.type d); destruct Hstatus; try discriminate;
      reflexivity. }
  destruct (execute_cases w queries)
    as [[_ Hrun]|[[_ Hrun]|(Hkey & responses & Hall)]].
  - rewrite Hrun in Hin. destruct Hin.
  - rewrite Hrun in Hin. destruct Hin as [<-|[]].
    destruct Hstatus; discriminate.
  - assert (Hbatches :
              List.filter isSourcesBatch (written (snd (execute w queries)))
              = sourceBatches (generateUUID w) responses).
    { rewrite (written_execute_resolved _ _ _ Hkey Hall). cbv zeta.
      cbn [List.filter isSourcesBatch searchingEvent statusEvent
             DataStreamDelta.type].
      rewrite List.filter_app, filter_batches.
      rewrite <- (app_nil_r (sourceBatches _ _)) at 2. f_equal.
      destruct (accumulated responses) as [|x xs]; [reflexivity|].
      cbn [List.filter isSourcesBatch summarizingEvent statusEvent
             DataStreamDelta.type].
      rewrite List.filter_app, filter_deltas.
      now destruct (TextStream.ending _) as [[]| |]. }
    rewrite Hbatches, carried_batches.
    destruct (status_event_resolved w queries responses d Hkey Hall Hin Htype)
      as [->|[[_ ->]|[[_ ->]|[(_ & _ & ->)|(_ & message & _ & ->)]]]];
      try reflexivity; destruct Hstatus; discriminate.
Qed.

Lemma batches_add_up_to_the_full_list_witness :
  let d := summarizingEvent "call-1"
             [exampleResult "u" "first title";
              exampleResult "u" "second title";
              exampleResult "v" "other"] in
  In d (written (snd (execute overlapWorld ["a"; "b"])))
  /\ sourcesOf d
     = Some (flat_map carriedSources
               (List.filter isSourcesBatch
                  (written (snd (execute overlapWorld ["a"; "b"]))))).
Proof.
  intros d.
  assert (Hin : In d (written (snd (execute overlapWorld ["a"; "b"]))))
    by (vm_compute; tauto).
  split; [exact Hin|].
  exact (batches_add_up_to_the_full_list overlapWorld ["a"; "b"] d Hin
           (or_introl eq_refl)).
Defined.

Lemma Promise_all_order_irrelevant (w : World.t) (queries : list string)
  (order1 order2 : list nat) :
  Permutation order1 (seq 0 (length queries)) ->
  Permutation order2 (seq 0 (length queries)) ->
  Promise_all (searchPromises w queries) order1
  = Promise_all (searchPromises w queries) order2.
Proof.
  intros H1 H2.
  rewrite <- (searchPromises_length w queries) in H1, H2.
  destruct (Promise_all (searchPromises w queries) order1)
    as [values|message|] eqn:Hone.
  - apply Promise_all_sound in Hone as [Hvalues _].
    symmetry. now apply Promise_all_fulfilled.
  - exfalso.
    exact (Promise_all_searches_never_throw
             (withCompletionOrder w order1) queries message Hone).
  - destruct (Promise_all (searchPromises w queries) order2)
      as [values|message|] eqn:Htwo; [| |reflexivity].
    + apply Promise_all_sound in Htwo as [Hvalues _].
      rewrite (Promise_all_fulfilled _ values order1 Hvalues H1) in Hone.
      discriminate Hone.
    + exfalso.
      exact (Promise_all_searches_never_throw
               (withCompletionOrder w order2) queries message Htwo).
Qed.

(** X21. The order in which the searches complete changes nothing:
    two calls that differ only in that order, each search completing
    once, write the same events, make the same summarization call and
    return the same. *)
Theorem completion_order_changes_nothing
  (w : World.t) (queries : list string) (order1 order2 : list nat) :
  Permutation order1 (seq 0 (length queries)) ->
  Permutation order2 (seq 0 (length queries)) ->
  execute (withCompletionOrder w order1) queries
  = execute (withCompletionOrder w order2) queries.
Proof.
  intros H1 H2. unfold execute, tryBlock.
  cbn [withCompletionOrder World.TAVILY_API_KEY World.completionOrder].
  change (searchPromises (withCompletionOrder w order1) queries)
    with (searchPromises w queries).
  change (searchPromises (withCompletionOrder w order2) queries)
    with (searchPromises w queries).
  now rewrite (Promise_all_order_irrelevant w queries order1 order2 H1 H2).
Qed.

Lemma completion_order_changes_nothing_witness :
  execute (withCompletionOrder overlapWorld [1; 0]) ["a"; "b"]
  = execute (withCompletionOrder overlapWorld [0; 1]) ["a"; "b"].
Proof.
  apply (completion_order_changes_nothing overlapWorld ["a"; "b"]).
  - apply perm_swap.
  - apply Permutation_refl.
Defined.
